(** * Pong (type.py): a shallow embedding of the simulation loop

    The program is a single Python file built on Pygame.  The embedding
    follows the source function by function:

    - Python [float] values (ball position, velocity, speed, angles) are
      modelled as real numbers [R]: arithmetic is exact, [math.cos],
      [math.sin] and [math.hypot] are the functions of the real line.
      Rounding error, infinities and NaN are outside the model.
    - Python [int] values are [Z].  A [pygame.Rect] stores four integers;
      assigning a float to one of its attributes keeps the integer part
      (conversion to a C [int], i.e. truncation toward zero).  [move_by]
      is written over unbounded integers; [move_by_checked] is the same
      method with the 32-bit range of the Rect's C [int]s (an assignment
      out of range raises, [rect.bottom] wraps around).  The two agree on
      every paddle inside the field and every step of at most
      [INT_MAX - HEIGHT] pixels, which covers every call the loop makes
      (steps of 7 and of at most 5 pixels).
    - The [random] module is an oracle: a stream of draws, and the game
      state records how many draws [Ball.reset] has consumed so far.
    - One iteration of the [while running] loop of [main] is the function
      [tick]; what the iteration receives from Pygame (the event queue and
      the held keys) is its [Input].  Rendering is left out. *)

From Stdlib Require Import Reals ZArith List Bool Lra Lia.
Import ListNotations.

Open Scope R_scope.

(** ** Configuration constants *)

Definition WIDTH : Z := 800.
Definition HEIGHT : Z := 500.

Definition PADDLE_W : Z := 12.
Definition PADDLE_H : Z := 100.
Definition PADDLE_OFFSET : Z := 20.
Definition PLAYER_SPEED : Z := 7.
Definition AI_MAX_SPEED : Z := 5.

Definition BALL_RADIUS : Z := 8.
Definition BALL_SPEED : Z := 5.
Definition BALL_SPEED_INC : R := 1 / 2.
Definition BALL_MAX_SPEED : Z := 14.

(** ** Numbers *)

(** Python's [int(y)] on a float, and the conversion Pygame applies when a
    float is stored in a [Rect] attribute: the fractional part is dropped. *)
Definition py_int (v : R) : Z :=
  if Rle_dec 0 v then Int_part v else (- Int_part (- v))%Z.

(** [math.hypot]. *)
Definition hypot (a b : R) : R := sqrt (a * a + b * b).

(** ** pygame.Rect *)

Record Rect := mkRect {
  rect_x : Z;
  rect_y : Z;
  rect_w : Z;
  rect_h : Z
}.

Definition rect_left (rc : Rect) : Z := rect_x rc.
Definition rect_top (rc : Rect) : Z := rect_y rc.
Definition rect_right (rc : Rect) : Z := (rect_x rc + rect_w rc)%Z.
Definition rect_bottom (rc : Rect) : Z := (rect_y rc + rect_h rc)%Z.
Definition rect_height (rc : Rect) : Z := rect_h rc.

Definition rect_set_y (rc : Rect) (v : Z) : Rect :=
  mkRect (rect_x rc) v (rect_w rc) (rect_h rc).

(** [rect.top = v] *)
Definition rect_set_top (rc : Rect) (v : Z) : Rect := rect_set_y rc v.

(** [rect.bottom = v] *)
Definition rect_set_bottom (rc : Rect) (v : Z) : Rect :=
  rect_set_y rc (v - rect_h rc)%Z.

(** [rect.centery = v]: Pygame places the top at [v - (h >> 1)]. *)
Definition rect_set_centery (rc : Rect) (v : Z) : Rect :=
  rect_set_y rc (v - Z.shiftr (rect_h rc) 1)%Z.

(** ** class Paddle *)

Record Paddle := mkPaddle {
  rect : Rect;
  speed : Z
}.

(** [Paddle.__init__(x, y)] *)
Definition Paddle_init (x y : Z) : Paddle :=
  mkPaddle (mkRect x y PADDLE_W PADDLE_H) PLAYER_SPEED.

Definition set_rect (p : Paddle) (rc : Rect) : Paddle := mkPaddle rc (speed p).

(** [Paddle.move_to(y)] *)
Definition move_to (self : Paddle) (y : R) : Paddle :=
  set_rect self
    (rect_set_centery (rect self)
       (Z.max (PADDLE_H / 2) (Z.min (HEIGHT - PADDLE_H / 2) (py_int y)))).

(** [Paddle.move_by(dy)]: [rect.y += dy] goes through a float when [dy] is
    one, and the [Rect] keeps the integer part. *)
Definition move_by (self : Paddle) (dy : R) : Paddle :=
  let r1 := rect_set_y (rect self) (py_int (IZR (rect_y (rect self)) + dy)) in
  let r2 := if (rect_top r1 <? 0)%Z then rect_set_top r1 0 else r1 in
  let r3 := if (rect_bottom r2 >? HEIGHT)%Z then rect_set_bottom r2 HEIGHT else r2 in
  set_rect self r3.

(** ** class Ball *)

Record Ball := mkBall {
  ball_x : R;
  ball_y : R;
  ball_r : R;
  ball_speed : R;
  ball_vx : R;
  ball_vy : R
}.

(** The argument [serving_to] of [Ball.reset]: ['left'], ['right'], or
    [None] (any other value takes the same branch as [None]). *)
Inductive Side := SideLeft | SideRight.

(** What one call of [Ball.reset] takes from the [random] module:
    the result of [random.uniform(-pi/6, pi/6)] and the index picked by
    [random.choice([-1, 1])] (used only when no side is given). *)
Record Draw := mkDraw {
  draw_angle : R;
  draw_second : bool
}.

(** [random.uniform(a, b)] returns a value between its bounds. *)
Definition draw_ok (d : Draw) : Prop :=
  - (PI / 6) <= draw_angle d <= PI / 6.

(** [random.choice([-1, 1])] *)
Definition choice_dir (d : Draw) : R := if draw_second d then 1 else -1.

(** [Ball.reset(serving_to)]: every attribute is assigned, so the result
    does not depend on the previous attributes of [self]. *)
Definition reset (self : Ball) (serving_to : option Side) (d : Draw) : Ball :=
  let speed := IZR BALL_SPEED in
  let angle := draw_angle d in
  let dirx :=
    match serving_to with
    | Some SideLeft => -1
    | Some SideRight => 1
    | None => choice_dir d
    end in
  mkBall (IZR WIDTH / 2) (IZR HEIGHT / 2) (IZR BALL_RADIUS) speed
         (dirx * speed * cos angle) (speed * sin angle).

(** [Ball.update()] *)
Definition update (self : Ball) : Ball :=
  mkBall (ball_x self + ball_vx self) (ball_y self + ball_vy self)
         (ball_r self) (ball_speed self) (ball_vx self) (ball_vy self).

(** ** Collision and rebound *)

(** [circle_rect_collision(cx, cy, r, rect)] *)
Definition circle_rect_collision (cx cy r : R) (rc : Rect) : bool :=
  let closest_x := Rmax (IZR (rect_left rc)) (Rmin cx (IZR (rect_right rc))) in
  let closest_y := Rmax (IZR (rect_top rc)) (Rmin cy (IZR (rect_bottom rc))) in
  let dx := cx - closest_x in
  let dy := cy - closest_y in
  if Rle_dec (dx * dx + dy * dy) (r * r) then true else false.

(** [reflect_ball_from_paddle(ball, paddle, is_left_paddle)].  The division
    by half the paddle height raises in Python when the height is zero; the
    height of every [Paddle] is [PADDLE_H], and the theorems about this
    function assume a non-zero height. *)
Definition reflect_ball_from_paddle (ball : Ball) (paddle : Paddle)
    (is_left_paddle : bool) : Ball :=
  let paddle_center :=
    IZR (rect_top (rect paddle)) + IZR (rect_height (rect paddle)) / 2 in
  let relative :=
    (ball_y ball - paddle_center) / (IZR (rect_height (rect paddle)) / 2) in
  let relative := Rmax (-1) (Rmin 1 relative) in
  let bounce_angle := relative * (PI / 4) in
  let speed :=
    Rmin (IZR BALL_MAX_SPEED)
         (hypot (ball_vx ball) (ball_vy ball) + BALL_SPEED_INC) in
  let vx :=
    if is_left_paddle then Rabs (speed * cos bounce_angle)
    else - Rabs (speed * cos bounce_angle) in
  mkBall (ball_x ball) (ball_y ball) (ball_r ball) speed
         vx (speed * sin bounce_angle).

(** ** The main loop *)

Inductive Key := K_ESCAPE | K_SPACE | K_r | K_other.

Inductive Event :=
| QUIT
| KEYDOWN (key : Key)
| MOUSEMOTION (mx my : Z)
| OtherEvent.

(** What one iteration reads from Pygame: the queued events, in order, and
    the state of the two arrow keys. *)
Record Input := mkInput {
  events : list Event;
  key_up : bool;
  key_down : bool
}.

(** The local variables of [main] that the loop reads and writes, and the
    number of draws taken from the random source so far. *)
Record Game := mkGame {
  left_paddle : Paddle;
  right_paddle : Paddle;
  ball : Ball;
  left_score : Z;
  right_score : Z;
  running : bool;
  paused : bool;
  draws_used : nat
}.

Definition Oracle := nat -> Draw.

Definition oracle_ok (o : Oracle) : Prop := forall n, draw_ok (o n).

Definition set_left_paddle (g : Game) (p : Paddle) : Game :=
  mkGame p (right_paddle g) (ball g) (left_score g) (right_score g)
         (running g) (paused g) (draws_used g).

Definition set_right_paddle (g : Game) (p : Paddle) : Game :=
  mkGame (left_paddle g) p (ball g) (left_score g) (right_score g)
         (running g) (paused g) (draws_used g).

Definition set_ball (g : Game) (b : Ball) : Game :=
  mkGame (left_paddle g) (right_paddle g) b (left_score g) (right_score g)
         (running g) (paused g) (draws_used g).

Definition set_running (g : Game) (v : bool) : Game :=
  mkGame (left_paddle g) (right_paddle g) (ball g) (left_score g)
         (right_score g) v (paused g) (draws_used g).

Definition set_paused (g : Game) (v : bool) : Game :=
  mkGame (left_paddle g) (right_paddle g) (ball g) (left_score g)
         (right_score g) (running g) v (draws_used g).

(** The state before the first iteration (lines 122-131); [Ball()] calls
    [reset(None)] and takes the first draw. *)
Definition initial (o : Oracle) : Game :=
  let b0 := mkBall 0 0 0 0 0 0 in
  mkGame (Paddle_init PADDLE_OFFSET ((HEIGHT - PADDLE_H) / 2))
         (Paddle_init (WIDTH - PADDLE_W - PADDLE_OFFSET) ((HEIGHT - PADDLE_H) / 2))
         (reset b0 None (o 0%nat))
         0 0 true false 1.

(** One event of the [for event in pygame.event.get()] loop. *)
Definition handle_event (o : Oracle) (g : Game) (e : Event) : Game :=
  match e with
  | QUIT => set_running g false
  | KEYDOWN K_ESCAPE => set_running g false
  | KEYDOWN K_SPACE => set_paused g (negb (paused g))
  | KEYDOWN K_r =>
      mkGame (left_paddle g) (right_paddle g)
             (reset (ball g) None (o (draws_used g)))
             0 0 (running g) false (S (draws_used g))
  | KEYDOWN K_other => g
  | MOUSEMOTION mx my => set_left_paddle g (move_to (left_paddle g) (IZR my))
  | OtherEvent => g
  end.

Definition handle_events (o : Oracle) (g : Game) (evs : list Event) : Game :=
  fold_left (handle_event o) evs g.

(** The held arrow keys (lines 156-160). *)
Definition handle_keys (g : Game) (i : Input) : Game :=
  let g1 :=
    if key_up i
    then set_left_paddle g
           (move_by (left_paddle g) (IZR (- speed (left_paddle g))))
    else g in
  if key_down i
  then set_left_paddle g1
         (move_by (left_paddle g1) (IZR (speed (left_paddle g1))))
  else g1.

(** The AI of the right paddle (lines 174-179). *)
Definition ai_diff (g : Game) : R :=
  ball_y (ball g)
  - (IZR (rect_top (rect (right_paddle g)))
     + IZR (rect_height (rect (right_paddle g))) / 2).

Definition ai_move (diff : R) : R :=
  Rmax (IZR (- AI_MAX_SPEED)) (Rmin (IZR AI_MAX_SPEED) diff).

Definition update_ai (g : Game) : Game :=
  let diff := ai_diff g in
  if Rgt_dec (Rabs diff) 4
  then set_right_paddle g (move_by (right_paddle g) (ai_move diff))
  else g.

(** Top and bottom walls (lines 184-190). *)
Definition wall_collision (b : Ball) : Ball :=
  if Rle_dec (ball_y b - ball_r b) 0 then
    mkBall (ball_x b) (ball_r b) (ball_r b) (ball_speed b)
           (ball_vx b) (- ball_vy b)
  else if Rge_dec (ball_y b + ball_r b) (IZR HEIGHT) then
    mkBall (ball_x b) (IZR HEIGHT - ball_r b) (ball_r b) (ball_speed b)
           (ball_vx b) (- ball_vy b)
  else b.

Definition set_ball_x (b : Ball) (v : R) : Ball :=
  mkBall v (ball_y b) (ball_r b) (ball_speed b) (ball_vx b) (ball_vy b).

(** Paddle collisions, left paddle first (lines 192-200). *)
Definition paddle_collision (lp rp : Paddle) (b : Ball) : Ball :=
  let b1 :=
    if circle_rect_collision (ball_x b) (ball_y b) (ball_r b) (rect lp)
    then reflect_ball_from_paddle
           (set_ball_x b (IZR (rect_right (rect lp)) + ball_r b)) lp true
    else b in
  if circle_rect_collision (ball_x b1) (ball_y b1) (ball_r b1) (rect rp)
  then reflect_ball_from_paddle
         (set_ball_x b1 (IZR (rect_left (rect rp)) - ball_r b1)) rp false
  else b1.

(** Lines 174-200: AI, ball advance, walls, paddles.  The result is the
    state on which the scoring test of line 203 is evaluated. *)
Definition physics (g : Game) : Game :=
  let g1 := update_ai g in
  set_ball g1
    (paddle_collision (left_paddle g1) (right_paddle g1)
       (wall_collision (update (ball g1)))).

(** The two guards of the scoring test. *)
Definition exits_left (b : Ball) : Prop := ball_x b - ball_r b <= 0.
Definition exits_right (b : Ball) : Prop := ball_x b + ball_r b >= IZR WIDTH.

(** Scoring (lines 202-209). *)
Definition scoring (o : Oracle) (g : Game) : Game :=
  if Rle_dec (ball_x (ball g) - ball_r (ball g)) 0 then
    mkGame (left_paddle g) (right_paddle g)
           (reset (ball g) (Some SideRight) (o (draws_used g)))
           (left_score g) (right_score g + 1)
           (running g) (paused g) (S (draws_used g))
  else if Rge_dec (ball_x (ball g) + ball_r (ball g)) (IZR WIDTH) then
    mkGame (left_paddle g) (right_paddle g)
           (reset (ball g) (Some SideLeft) (o (draws_used g)))
           (left_score g + 1) (right_score g)
           (running g) (paused g) (S (draws_used g))
  else g.

(** The part of an iteration that comes before the pause test:
    the event queue, then the held keys. *)
Definition apply_input (o : Oracle) (g : Game) (i : Input) : Game :=
  handle_keys (handle_events o g (events i)) i.

(** One iteration of [while running]. *)
Definition tick (o : Oracle) (g : Game) (i : Input) : Game :=
  let g1 := apply_input o g i in
  if paused g1 then g1 else scoring o (physics g1).

(** The loop: iterations are run while [running] holds; the iteration in
    which [running] is cleared is still completed. *)
Fixpoint main_loop (o : Oracle) (g : Game) (inputs : list Input) : Game :=
  match inputs with
  | [] => g
  | i :: rest => if running g then main_loop o (tick o g i) rest else g
  end.

(** ** Predicates, derived functions and sample states used in the
    statements *)

(** A draw at angle zero. *)
Definition draw_flat : Draw := mkDraw 0 true.

(** The clamped relative hit position and the new speed computed by
    [reflect_ball_from_paddle] (its lines 102-104 and 106). *)
Definition bounce_relative (ball : Ball) (paddle : Paddle) : R :=
  Rmax (-1)
    (Rmin 1
       ((ball_y ball
         - (IZR (rect_top (rect paddle)) + IZR (rect_height (rect paddle)) / 2))
        / (IZR (rect_height (rect paddle)) / 2))).

Definition rebound_speed (ball : Ball) : R :=
  Rmin (IZR BALL_MAX_SPEED)
       (hypot (ball_vx ball) (ball_vy ball) + BALL_SPEED_INC).

(** The ball and the left paddle of the spec's scenario: the ball arrives
    at the paddle's vertical centre with velocity (-5, 0). *)
Definition centre_hit_ball : Ball := mkBall 40 250 8 5 (-5) 0.
Definition centre_hit_paddle : Paddle := Paddle_init 20 200.

(** The rectangle lies within the field vertically. *)
Definition paddle_in_field (p : Paddle) : Prop :=
  (0 <= rect_top (rect p) /\ rect_bottom (rect p) <= HEIGHT)%Z.

(** The size every [Paddle] gets from its constructor. *)
Definition paddle_sized (p : Paddle) : Prop :=
  rect_w (rect p) = PADDLE_W /\ rect_h (rect p) = PADDLE_H.

Inductive PaddleCall :=
| CallMoveTo (y : R)
| CallMoveBy (dy : R).

Definition apply_call (p : Paddle) (c : PaddleCall) : Paddle :=
  match c with
  | CallMoveTo y => move_to p y
  | CallMoveBy dy => move_by p dy
  end.

(** The paddle after each call of a sequence, in order. *)
Fixpoint paddle_trace (p : Paddle) (calls : list PaddleCall) : list Paddle :=
  match calls with
  | [] => []
  | c :: rest => apply_call p c :: paddle_trace (apply_call p c) rest
  end.

(** The reset key and the pause key among the events of an iteration. *)
Definition is_reset (e : Event) : bool :=
  match e with KEYDOWN K_r => true | _ => false end.

Definition is_toggle (e : Event) : bool :=
  match e with KEYDOWN K_SPACE => true | _ => false end.

Definition no_reset (i : Input) : Prop :=
  forallb (fun e => negb (is_reset e)) (events i) = true.

Definition quiet (i : Input) : Prop :=
  forallb (fun e => negb (is_reset e) && negb (is_toggle e)) (events i) = true.

(** The ball and both scores are the same in two states. *)
Definition frozen (g g' : Game) : Prop :=
  ball g' = ball g /\
  left_score g' = left_score g /\
  right_score g' = right_score g.

(** The game as it starts when every draw is [draw_flat], then paused. *)
Definition flat_oracle : Oracle := fun _ => draw_flat.
Definition paused_start : Game := set_paused (initial flat_oracle) true.

(** The left paddle as the events and the held keys of one iteration leave
    it: each mouse motion calls [move_to], then the arrow keys call
    [move_by]. *)
Definition left_after_event (p : Paddle) (e : Event) : Paddle :=
  match e with
  | MOUSEMOTION mx my => move_to p (IZR my)
  | _ => p
  end.

Definition left_after_keys (p : Paddle) (i : Input) : Paddle :=
  let p1 := if key_up i then move_by p (IZR (- speed p)) else p in
  if key_down i then move_by p1 (IZR (speed p1)) else p1.

Definition left_after_input (p : Paddle) (i : Input) : Paddle :=
  left_after_keys (fold_left left_after_event (events i) p) i.

(** The starting position with the ball placed high in the field, moving
    right. *)
Definition high_ball_game : Game :=
  set_ball (initial flat_oracle) (mkBall 400 100 8 5 5 0).

Definition no_input : Input := mkInput [] false false.

(** What holds of the ball at every point of an iteration: its radius is
    the configured one, the speed attribute is the length of the velocity,
    and it lies between the base speed and the maximum. *)
Definition ball_core (b : Ball) : Prop :=
  ball_r b = IZR BALL_RADIUS /\
  ball_speed b = hypot (ball_vx b) (ball_vy b) /\
  IZR BALL_SPEED <= ball_speed b <= IZR BALL_MAX_SPEED.

(** Between iterations the ball is also strictly inside the field
    horizontally. *)
Definition ball_inside (b : Ball) : Prop :=
  0 < ball_x b - ball_r b /\ ball_x b + ball_r b < IZR WIDTH.

(** Where the two paddles stand horizontally, as [main] creates them. *)
Definition paddles_placed (g : Game) : Prop :=
  rect_x (rect (left_paddle g)) = PADDLE_OFFSET /\
  rect_x (rect (right_paddle g)) = (WIDTH - PADDLE_W - PADDLE_OFFSET)%Z.

Definition scores_nonneg (g : Game) : Prop :=
  (0 <= left_score g /\ 0 <= right_score g)%Z.

(** The invariant of the loop: it holds before the first iteration and
    after every iteration. *)
Definition game_inv (g : Game) : Prop :=
  paddle_sized (left_paddle g) /\ paddle_in_field (left_paddle g) /\
  paddle_sized (right_paddle g) /\ paddle_in_field (right_paddle g) /\
  ball_core (ball g) /\ ball_inside (ball g) /\
  paddles_placed g /\ scores_nonneg g.

(** The states the program can be in at the top of the loop, for a given
    random source: the initial one, and the one an iteration leaves from a
    state in which the loop is still running. *)
Inductive reachable (o : Oracle) : Game -> Prop :=
| reach_initial : reachable o (initial o)
| reach_tick (g : Game) (i : Input) :
    reachable o g -> running g = true -> reachable o (tick o g i).

(** The ball on which an iteration's scoring test is (or would be)
    evaluated: after the physics when the iteration is not paused, the
    frozen ball otherwise. *)
Definition ball_at_test (o : Oracle) (g : Game) (i : Input) : Ball :=
  let g1 := apply_input o g i in
  ball (if paused g1 then g1 else physics g1).

(** A random source whose first serve is horizontal and to the left. *)
Definition level_oracle : Oracle := fun _ => mkDraw 0 false.

(** The player parks the left paddle at the bottom of the field. *)
Definition mouse_to_bottom : Input := mkInput [MOUSEMOTION 0 450] false false.

(** The game while that first serve travels: the left paddle is at the
    bottom, the ball is level with the centre of the right paddle and moves
    horizontally to the left; [x] is its abscissa. *)
Definition approach (x : R) : Game :=
  mkGame (Paddle_init 20 400) (Paddle_init 768 200)
         (mkBall x 250 8 5 (-5) 0) 0 0 true false 1.

(** The state in which that ball is about to leave through the left
    boundary. *)
Definition left_exit_game : Game := approach 10.

(** A random source that differs from [flat_oracle] at every draw. *)
Definition steep_oracle : Oracle := fun _ => mkDraw (PI / 6) false.

(** ** Further predicates and derived functions *)

(** The ball lies within the field vertically. *)
Definition ball_vertical (b : Ball) : Prop :=
  ball_r b <= ball_y b <= IZR HEIGHT - ball_r b.

(** The events that clear [running]: closing the window and the Esc key. *)
Definition is_quit (e : Event) : bool :=
  match e with
  | QUIT => true
  | KEYDOWN K_ESCAPE => true
  | _ => false
  end.

(** [k] successive calls [move_by(dy)]: an arrow key held for [k]
    iterations. *)
Fixpoint move_by_times (p : Paddle) (dy : Z) (k : nat) : Paddle :=
  match k with
  | O => p
  | S k' => move_by_times (move_by p (IZR dy)) dy k'
  end.

(** [draw_scores]: the abscissas at which the left score, the separator
    and the right score are blitted, from the widths of the three rendered
    surfaces (lines 242-248; the ordinate is always 20). *)
Definition draw_scores_xs (left_w sep_w right_w : Z) : Z * Z * Z :=
  let total_w := (left_w + sep_w + right_w + 40)%Z in
  let x0 := ((WIDTH - total_w) / 2)%Z in
  let x1 := (x0 + (left_w + 20))%Z in
  let x2 := (x1 + (sep_w + 20))%Z in
  (x0, x1, x2).

(** Two paddles that differ at most in their vertical position. *)
Definition same_shape (p p' : Paddle) : Prop :=
  rect_x (rect p') = rect_x (rect p) /\
  rect_w (rect p') = rect_w (rect p) /\
  rect_h (rect p') = rect_h (rect p) /\
  speed p' = speed p.

(** [Ball.rect()]: the bounding square handed to Pygame; its corner is
    the integer part of the ball's corner and its side is twice the
    radius. *)
Definition Ball_rect (self : Ball) : Rect :=
  mkRect (py_int (ball_x self - ball_r self)) (py_int (ball_y self - ball_r self))
         (py_int (ball_r self * 2)) (py_int (ball_r self * 2)).

(** ** The C integers of pygame.Rect *)

Definition INT_MIN : Z := -2147483648.
Definition INT_MAX : Z := 2147483647.

(** The values a Rect attribute can be assigned; any other raises. *)
Definition c_int_ok (v : Z) : bool :=
  ((INT_MIN <=? v) && (v <=? INT_MAX))%Z.

(** The result of C [int] arithmetic that leaves the range. *)
Definition wrap_c_int (v : Z) : Z := ((v - INT_MIN) mod 2 ^ 32 + INT_MIN)%Z.

(** [rect.bottom] as Pygame computes it, [y + h] on C [int]s, and the
    assignment [rect.bottom = v], which stores [v - h]. *)
Definition rect_bottom_c (rc : Rect) : Z := wrap_c_int (rect_y rc + rect_h rc).

Definition rect_set_bottom_c (rc : Rect) (v : Z) : Rect :=
  rect_set_y rc (wrap_c_int (v - rect_h rc)).

(** [Paddle.move_by(dy)] on the Rect's C [int]s: [None] when the
    assignment to [rect.y] raises. *)
Definition move_by_checked (self : Paddle) (dy : R) : option Paddle :=
  let v := py_int (IZR (rect_y (rect self)) + dy) in
  if c_int_ok v then
    let r1 := rect_set_y (rect self) v in
    let r2 := if (rect_top r1 <? 0)%Z then rect_set_top r1 0 else r1 in
    let r3 :=
      if (rect_bottom_c r2 >? HEIGHT)%Z then rect_set_bottom_c r2 HEIGHT
      else r2 in
    Some (set_rect self r3)
  else None.

(** The steps for which [rect.y + dy] and [rect.bottom] stay within the
    range, from any position inside the field. *)
Definition step_bounded (dy : R) : Prop := Rabs dy <= IZR (INT_MAX - HEIGHT).




Fixpoint move_by_checked_times (p : Paddle) (dz : Z) (k : nat)
    : option Paddle :=
  match k with
  | O => Some p
  | S k' =>
      match move_by_checked p (IZR dz) with
      | None => None
      | Some p' => move_by_checked_times p' dz k'
      end
  end.

(** * Properties *)

(** ** Numeric facts used throughout *)

Lemma py_int_IZR (z : Z) : py_int (IZR z) = z.
Proof.
  unfold py_int. destruct (Rle_dec 0 (IZR z)) as [H | H].
  - symmetry. apply Int_part_spec. lra.
  - rewrite <- opp_IZR. replace (Int_part (IZR (- z))) with (- z)%Z.
    + lia.
    + apply Int_part_spec. lra.
Qed.

Lemma Int_part_bounds (v : R) : IZR (Int_part v) <= v < IZR (Int_part v) + 1.
Proof.
  destruct (base_Int_part v) as [H1 H2]. lra.
Qed.

(** Dropping the fractional part moves a value by less than one, toward
    zero. *)
Lemma py_int_nonneg (v : R) : 0 <= v -> IZR (py_int v) <= v < IZR (py_int v) + 1.
Proof.
  intros H. unfold py_int. destruct (Rle_dec 0 v); [apply Int_part_bounds | lra].
Qed.

Lemma py_int_neg (v : R) : v < 0 -> v <= IZR (py_int v) < v + 1.
Proof.
  intros H. unfold py_int. destruct (Rle_dec 0 v); [lra |].
  rewrite opp_IZR. pose proof (Int_part_bounds (- v)). lra.
Qed.

Lemma py_int_close (v : R) : v - 1 < IZR (py_int v) < v + 1.
Proof.
  destruct (Rle_dec 0 v) as [H | H].
  - pose proof (py_int_nonneg v H). lra.
  - pose proof (py_int_neg v ltac:(lra)). lra.
Qed.

(** An integer within reach of a real bound: integers strictly less than
    [b + 1] are at most [b] when [b] is an integer. *)
Lemma IZR_lt_succ_le (a b : Z) : IZR a < IZR b + 1 -> (a <= b)%Z.
Proof.
  intros H. rewrite <- plus_IZR in H. apply lt_IZR in H. lia.
Qed.

Lemma IZR_pred_lt_le (a b : Z) : IZR b - 1 < IZR a -> (b <= a)%Z.
Proof.
  intros H. rewrite <- minus_IZR in H. apply lt_IZR in H. lia.
Qed.

Lemma hypot_nonneg (a b : R) : 0 <= hypot a b.
Proof. unfold hypot. apply sqrt_pos. Qed.

Lemma hypot_opp_r (a b : R) : hypot a (- b) = hypot a b.
Proof. unfold hypot. f_equal. ring. Qed.

Lemma hypot_opp_l (a b : R) : hypot (- a) b = hypot a b.
Proof. unfold hypot. f_equal. ring. Qed.

Lemma hypot_abs_l (a b : R) : hypot (Rabs a) b = hypot a b.
Proof.
  unfold hypot. f_equal. f_equal.
  unfold Rabs. destruct (Rcase_abs a); ring.
Qed.

(** A vector of length [s] at angle [a]. *)
Lemma hypot_polar (s a : R) : 0 <= s -> hypot (s * cos a) (s * sin a) = s.
Proof.
  intros Hs. unfold hypot.
  replace (s * cos a * (s * cos a) + s * sin a * (s * sin a))
    with (Rsqr s * (Rsqr (sin a) + Rsqr (cos a))) by (unfold Rsqr; ring).
  rewrite sin2_cos2, Rmult_1_r. apply sqrt_Rsqr. exact Hs.
Qed.

Lemma cos_pos_quarter (a : R) : - (PI / 4) <= a <= PI / 4 -> 0 < cos a.
Proof.
  intros [H1 H2]. pose proof PI_RGT_0. apply cos_gt_0; lra.
Qed.

(** Within a cone of half-angle [t] (at most 45 degrees) around the
    horizontal axis, the vertical component is at most [tan t] times the
    horizontal one. *)
Lemma sin_le_tan_cos (t a : R) :
  0 <= t <= PI / 4 -> - t <= a <= t -> Rabs (sin a) <= tan t * cos a.
Proof.
  intros [Ht0 Ht1] [Ha0 Ha1]. pose proof PI_RGT_0 as Hpi.
  assert (Hmono : forall u, 0 <= u <= t -> sin u <= tan t * cos u).
  { intros u [Hu0 Hu1].
    assert (Hc : 0 < cos u) by (apply cos_pos_quarter; lra).
    assert (Ht : tan u <= tan t) by (apply tan_incr_1; lra).
    unfold tan at 1 in Ht.
    apply (Rmult_le_compat_r (cos u)) in Ht; [| lra].
    replace (sin u / cos u * cos u) with (sin u) in Ht by (field; lra).
    exact Ht. }
  destruct (Rle_dec 0 a) as [Hp | Hn].
  - rewrite Rabs_pos_eq; [apply Hmono; lra | apply sin_ge_0; lra].
  - assert (Hs : 0 <= sin (- a)) by (apply sin_ge_0; lra).
    rewrite sin_neg in Hs.
    rewrite Rabs_left1 by lra.
    rewrite <- sin_neg, <- (cos_neg a). apply Hmono. lra.
Qed.

(** ** Serve *)

Lemma serve_cos_pos (d : Draw) : draw_ok d -> 0 < cos (draw_angle d).
Proof.
  intros [H1 H2]. pose proof PI_RGT_0. apply cos_pos_quarter. lra.
Qed.

Lemma reset_hypot (self : Ball) (serving_to : option Side) (d : Draw) :
  hypot (ball_vx (reset self serving_to d)) (ball_vy (reset self serving_to d))
  = IZR BALL_SPEED.
Proof.
  assert (H5 : 0 <= IZR BALL_SPEED) by (unfold BALL_SPEED; lra).
  pose proof (hypot_polar _ (draw_angle d) H5) as Hp.
  unfold reset; simpl.
  destruct serving_to as [[|]|]; [| | unfold choice_dir; destruct (draw_second d)].
  all: try (replace (1 * IZR BALL_SPEED * cos (draw_angle d))
              with (IZR BALL_SPEED * cos (draw_angle d)) by ring; exact Hp).
  all: replace (-1 * IZR BALL_SPEED * cos (draw_angle d))
         with (- (IZR BALL_SPEED * cos (draw_angle d))) by ring;
       rewrite hypot_opp_l; exact Hp.
Qed.

(** C5: [Ball.reset] serves toward the named side ([vx < 0] for ['left'],
    [vx > 0] for ['right']); whatever the argument, the ball is placed at
    the centre of the field, its velocity has length [BALL_SPEED] (which
    is also the value of the speed attribute) and its direction is within
    30 degrees of the horizontal axis. *)
Theorem reset_serves_toward_side (self : Ball) (serving_to : option Side)
    (d : Draw) :
  draw_ok d ->
  let b := reset self serving_to d in
  (serving_to = Some SideLeft -> ball_vx b < 0) /\
  (serving_to = Some SideRight -> 0 < ball_vx b) /\
  ball_x b = IZR WIDTH / 2 /\
  ball_y b = IZR HEIGHT / 2 /\
  hypot (ball_vx b) (ball_vy b) = IZR BALL_SPEED /\
  ball_speed b = IZR BALL_SPEED /\
  ball_vx b <> 0 /\
  Rabs (ball_vy b) <= tan (PI / 6) * Rabs (ball_vx b).
Proof.
  intros Hd b.
  pose proof (serve_cos_pos d Hd) as Hc.
  assert (Hvx : Rabs (ball_vx b) = IZR BALL_SPEED * cos (draw_angle d)).
  { subst b. unfold reset, choice_dir, BALL_SPEED; simpl.
    destruct serving_to as [[|]|]; [| | destruct (draw_second d)].
    all: first [ rewrite Rabs_pos_eq by nra; ring
               | rewrite Rabs_left1 by nra; ring ]. }
  repeat split.
  - intros ->. subst b. unfold reset, BALL_SPEED; simpl. nra.
  - intros ->. subst b. unfold reset, BALL_SPEED; simpl. nra.
  - apply reset_hypot.
  - intros H0. rewrite H0, Rabs_R0 in Hvx. unfold BALL_SPEED in Hvx. nra.
  - rewrite Hvx. subst b. unfold reset; simpl.
    rewrite Rabs_mult, (Rabs_pos_eq (IZR BALL_SPEED)) by (unfold BALL_SPEED; lra).
    pose proof PI_RGT_0.
    assert (Hs : Rabs (sin (draw_angle d)) <= tan (PI / 6) * cos (draw_angle d)).
    { apply sin_le_tan_cos; [lra | exact Hd]. }
    unfold BALL_SPEED. nra.
Qed.

Lemma draw_flat_ok : draw_ok draw_flat.
Proof. unfold draw_ok, draw_flat; simpl. pose proof PI_RGT_0. lra. Qed.

Lemma reset_serves_toward_side_witness :
  draw_ok draw_flat /\
  ball_vx (reset (mkBall 0 0 0 0 0 0) (Some SideLeft) draw_flat) < 0.
Proof.
  split; [exact draw_flat_ok |].
  exact (proj1 (reset_serves_toward_side (mkBall 0 0 0 0 0 0) (Some SideLeft)
                  draw_flat draw_flat_ok) eq_refl).
Defined.

(** ** Rebound *)

Lemma bounce_relative_range (ball : Ball) (paddle : Paddle) :
  -1 <= bounce_relative ball paddle <= 1.
Proof.
  unfold bounce_relative. split.
  - apply Rmax_l.
  - apply Rmax_lub; [lra | apply Rmin_l].
Qed.

Lemma bounce_angle_range (ball : Ball) (paddle : Paddle) :
  - (PI / 4) <= bounce_relative ball paddle * (PI / 4) <= PI / 4.
Proof.
  pose proof (bounce_relative_range ball paddle). pose proof PI_RGT_0. nra.
Qed.

Lemma rebound_speed_pos (ball : Ball) : 0 < rebound_speed ball.
Proof.
  unfold rebound_speed, BALL_MAX_SPEED, BALL_SPEED_INC.
  pose proof (hypot_nonneg (ball_vx ball) (ball_vy ball)).
  apply Rmin_glb_lt; lra.
Qed.

Lemma reflect_unfold (ball : Ball) (paddle : Paddle) (is_left_paddle : bool) :
  reflect_ball_from_paddle ball paddle is_left_paddle =
  mkBall (ball_x ball) (ball_y ball) (ball_r ball) (rebound_speed ball)
    (if is_left_paddle
     then Rabs (rebound_speed ball * cos (bounce_relative ball paddle * (PI / 4)))
     else - Rabs (rebound_speed ball * cos (bounce_relative ball paddle * (PI / 4))))
    (rebound_speed ball * sin (bounce_relative ball paddle * (PI / 4))).
Proof. reflexivity. Qed.

Lemma reflect_hypot (ball : Ball) (paddle : Paddle) (is_left_paddle : bool) :
  let b := reflect_ball_from_paddle ball paddle is_left_paddle in
  hypot (ball_vx b) (ball_vy b) = ball_speed b.
Proof.
  rewrite reflect_unfold; simpl.
  pose proof (rebound_speed_pos ball) as Hs.
  destruct is_left_paddle;
    rewrite ?hypot_opp_l, hypot_abs_l; apply hypot_polar; lra.
Qed.

(** C4: after [reflect_ball_from_paddle] (on a paddle of non-zero height,
    for which the division of line 103 is defined) the horizontal velocity
    points away from the paddle that was hit ([vx > 0] for the left paddle,
    [vx < 0] for the right one) whatever the incoming velocity was, and the
    direction is within 45 degrees of the horizontal axis:
    [|vy| <= |vx|]. *)
Theorem reflect_points_away (ball : Ball) (paddle : Paddle)
    (is_left_paddle : bool) :
  rect_height (rect paddle) <> 0%Z ->
  let b := reflect_ball_from_paddle ball paddle is_left_paddle in
  (is_left_paddle = true -> 0 < ball_vx b) /\
  (is_left_paddle = false -> ball_vx b < 0) /\
  Rabs (ball_vy b) <= Rabs (ball_vx b).
Proof.
  intros _ b. subst b. rewrite reflect_unfold; simpl.
  pose proof (rebound_speed_pos ball) as Hs.
  pose proof (bounce_angle_range ball paddle) as Ha.
  pose proof (cos_pos_quarter _ Ha) as Hc.
  set (s := rebound_speed ball) in *.
  set (a := bounce_relative ball paddle * (PI / 4)) in *.
  assert (Hsc : 0 < s * cos a) by nra.
  repeat split.
  - intros ->. rewrite Rabs_pos_eq; lra.
  - intros ->. rewrite Rabs_pos_eq; lra.
  - assert (Hsin : Rabs (sin a) <= tan (PI / 4) * cos a).
    { pose proof PI_RGT_0. apply sin_le_tan_cos; lra. }
    rewrite tan_PI4 in Hsin.
    assert (Hx : Rabs (if is_left_paddle then Rabs (s * cos a)
                       else - Rabs (s * cos a)) = s * cos a).
    { destruct is_left_paddle; rewrite ?Rabs_Ropp, Rabs_Rabsolu;
        apply Rabs_pos_eq; lra. }
    rewrite Hx, Rabs_mult, (Rabs_pos_eq s) by lra. nra.
Qed.

Lemma reflect_points_away_witness :
  rect_height (rect centre_hit_paddle) <> 0%Z /\
  0 < ball_vx (reflect_ball_from_paddle centre_hit_ball centre_hit_paddle true).
Proof.
  assert (H : rect_height (rect centre_hit_paddle) <> 0%Z) by discriminate.
  split; [exact H |].
  exact (proj1 (reflect_points_away centre_hit_ball centre_hit_paddle true H)
           eq_refl).
Defined.

Lemma wall_collision_speed (b : Ball) :
  hypot (ball_vx (wall_collision b)) (ball_vy (wall_collision b))
  = hypot (ball_vx b) (ball_vy b) /\
  ball_speed (wall_collision b) = ball_speed b /\
  ball_vx (wall_collision b) = ball_vx b /\
  (ball_vy (wall_collision b) = ball_vy b \/
   ball_vy (wall_collision b) = - ball_vy b).
Proof.
  unfold wall_collision.
  destruct (Rle_dec (ball_y b - ball_r b) 0);
    [| destruct (Rge_dec (ball_y b + ball_r b) (IZR HEIGHT))];
    simpl; rewrite ?hypot_opp_r; auto.
Qed.

(** C3: a paddle rebound (on a paddle of non-zero height) sets the speed to
    [min(BALL_MAX_SPEED, hypot(vx, vy) + BALL_SPEED_INC)], and the new
    velocity has exactly that length; the new speed never exceeds
    [BALL_MAX_SPEED] and, when the previous speed was at most
    [BALL_MAX_SPEED], it is not smaller than the previous speed (read as
    the length of the velocity, or as the speed attribute when the two
    agree).  The wall step leaves the length of the velocity and the speed
    attribute unchanged. *)
Theorem rebound_speed_monotone (ball : Ball) (paddle : Paddle)
    (is_left_paddle : bool) :
  rect_height (rect paddle) <> 0%Z ->
  let b := reflect_ball_from_paddle ball paddle is_left_paddle in
  let v := hypot (ball_vx ball) (ball_vy ball) in
  ball_speed b = Rmin (IZR BALL_MAX_SPEED) (v + BALL_SPEED_INC) /\
  hypot (ball_vx b) (ball_vy b) = ball_speed b /\
  ball_speed b <= IZR BALL_MAX_SPEED /\
  (v <= IZR BALL_MAX_SPEED -> v <= ball_speed b) /\
  (ball_speed ball = v -> ball_speed ball <= IZR BALL_MAX_SPEED ->
   ball_speed ball <= ball_speed b) /\
  hypot (ball_vx (wall_collision ball)) (ball_vy (wall_collision ball)) = v /\
  ball_speed (wall_collision ball) = ball_speed ball.
Proof.
  intros _ b v.
  assert (Hmono : v <= IZR BALL_MAX_SPEED -> v <= ball_speed b).
  { intros Hv. subst b. rewrite reflect_unfold; simpl.
    unfold rebound_speed. fold v. unfold BALL_SPEED_INC.
    apply Rmin_glb; lra. }
  split; [reflexivity |].
  split; [apply reflect_hypot |].
  split; [subst b; rewrite reflect_unfold; simpl; apply Rmin_l |].
  split; [exact Hmono |].
  split; [intros Heq Hle; rewrite Heq in *; auto |].
  destruct (wall_collision_speed ball) as (H1 & H2 & _). auto.
Qed.

Lemma centre_hit_hypot :
  hypot (ball_vx centre_hit_ball) (ball_vy centre_hit_ball) = 5.
Proof.
  unfold hypot, centre_hit_ball; simpl.
  replace (-5 * -5 + 0 * 0) with (Rsqr 5) by (unfold Rsqr; ring).
  apply sqrt_Rsqr. lra.
Qed.

(** The spec's scenario: a hit at the paddle's centre with velocity
    (-5, 0) leaves the ball with velocity (5.5, 0) and speed 5.5. *)
Lemma centre_hit_rebound :
  let b := reflect_ball_from_paddle centre_hit_ball centre_hit_paddle true in
  ball_vx b = 5 + 1 / 2 /\ ball_vy b = 0 /\ ball_speed b = 5 + 1 / 2.
Proof.
  assert (Hrel : bounce_relative centre_hit_ball centre_hit_paddle = 0).
  { unfold bounce_relative, centre_hit_ball, centre_hit_paddle; simpl.
    unfold PADDLE_H.
    replace ((250 - (200 + 100 / 2)) / (100 / 2)) with 0 by field.
    rewrite Rmin_right, Rmax_right by lra. reflexivity. }
  assert (Hs : rebound_speed centre_hit_ball = 5 + 1 / 2).
  { unfold rebound_speed. rewrite centre_hit_hypot.
    unfold BALL_MAX_SPEED, BALL_SPEED_INC. apply Rmin_right. lra. }
  cbv zeta. rewrite reflect_unfold; simpl.
  rewrite Hrel, Hs, Rmult_0_l, cos_0, sin_0.
  rewrite Rabs_pos_eq by lra. repeat split; lra.
Qed.

Lemma rebound_speed_monotone_witness :
  rect_height (rect centre_hit_paddle) <> 0%Z /\
  ball_speed (reflect_ball_from_paddle centre_hit_ball centre_hit_paddle true)
  = 5 + 1 / 2.
Proof.
  assert (H : rect_height (rect centre_hit_paddle) <> 0%Z) by discriminate.
  split; [exact H |].
  rewrite (proj1 (rebound_speed_monotone centre_hit_ball centre_hit_paddle
                    true H)).
  rewrite centre_hit_hypot. unfold BALL_MAX_SPEED, BALL_SPEED_INC.
  apply Rmin_right. lra.
Defined.

(** ** Paddle clamping *)

Lemma move_by_top (p : Paddle) (dy : R) :
  let z := py_int (IZR (rect_y (rect p)) + dy) in
  rect_y (rect (move_by p dy)) =
  (if (z <? 0)%Z
   then (if (0 + rect_h (rect p) >? HEIGHT)%Z then HEIGHT - rect_h (rect p) else 0)
   else (if (z + rect_h (rect p) >? HEIGHT)%Z then HEIGHT - rect_h (rect p) else z))%Z.
Proof.
  intros z. unfold move_by. fold z.
  unfold rect_top, rect_set_top, rect_bottom, rect_set_bottom, rect_set_y; simpl.
  destruct (z <? 0)%Z; simpl;
    match goal with |- context [(?a >? ?b)%Z] => destruct (a >? b)%Z end;
    reflexivity.
Qed.

Lemma move_by_size (p : Paddle) (dy : R) :
  rect_x (rect (move_by p dy)) = rect_x (rect p) /\
  rect_w (rect (move_by p dy)) = rect_w (rect p) /\
  rect_h (rect (move_by p dy)) = rect_h (rect p) /\
  speed (move_by p dy) = speed p.
Proof.
  unfold move_by, rect_top, rect_set_top, rect_bottom, rect_set_bottom,
    rect_set_y; simpl.
  destruct (py_int (IZR (rect_y (rect p)) + dy) <? 0)%Z; simpl;
    match goal with |- context [(?a >? ?b)%Z] => destruct (a >? b)%Z end;
    simpl; auto.
Qed.

Lemma move_to_size (p : Paddle) (y : R) :
  rect_x (rect (move_to p y)) = rect_x (rect p) /\
  rect_w (rect (move_to p y)) = rect_w (rect p) /\
  rect_h (rect (move_to p y)) = rect_h (rect p) /\
  speed (move_to p y) = speed p.
Proof. unfold move_to; simpl; auto. Qed.

Lemma move_by_in_field (p : Paddle) (dy : R) :
  paddle_in_field p -> paddle_in_field (move_by p dy).
Proof.
  unfold paddle_in_field, rect_top, rect_bottom. intros [H0 H1].
  destruct (move_by_size p dy) as (_ & _ & Hh & _).
  rewrite Hh, move_by_top.
  set (z := py_int (IZR (rect_y (rect p)) + dy)).
  destruct (Z.ltb_spec z 0);
    match goal with |- context [(?a >? ?b)%Z] =>
      pose proof (Zgt_cases a b); destruct (a >? b)%Z end; lia.
Qed.

Lemma move_to_in_field (p : Paddle) (y : R) :
  rect_h (rect p) = PADDLE_H -> paddle_in_field (move_to p y).
Proof.
  intros Hh. unfold paddle_in_field, rect_top, rect_bottom, move_to,
    rect_set_centery; simpl. rewrite Hh.
  change (Z.shiftr PADDLE_H 1) with 50%Z.
  change (PADDLE_H / 2)%Z with 50%Z.
  unfold HEIGHT, PADDLE_H. lia.
Qed.

Lemma apply_call_keeps (p : Paddle) (c : PaddleCall) :
  paddle_sized p -> paddle_in_field p ->
  paddle_sized (apply_call p c) /\ paddle_in_field (apply_call p c).
Proof.
  unfold paddle_sized. intros [Hw Hh] Hin. destruct c as [y | dy]; cbn [apply_call].
  - destruct (move_to_size p y) as (_ & Hw' & Hh' & _).
    rewrite Hw', Hh'. auto using move_to_in_field.
  - destruct (move_by_size p dy) as (_ & Hw' & Hh' & _).
    rewrite Hw', Hh'. auto using move_by_in_field.
Qed.

(** Over unbounded integers the clamps keep the paddle inside the field
    through any sequence of calls. *)
Lemma paddle_trace_in_field (p : Paddle) (calls : list PaddleCall) :
  paddle_sized p -> paddle_in_field p ->
  Forall paddle_in_field (paddle_trace p calls).
Proof.
  revert p. induction calls as [| c rest IH]; intros p Hs Hin; simpl.
  - constructor.
  - destruct (apply_call_keeps p c Hs Hin) as [Hs' Hin'].
    constructor; [exact Hin' | apply IH; assumption].
Qed.

Lemma paddle_init_sized (x y : Z) : paddle_sized (Paddle_init x y).
Proof. split; reflexivity. Qed.

Lemma wrap_c_int_id (v : Z) :
  (INT_MIN <= v <= INT_MAX)%Z -> wrap_c_int v = v.
Proof.
  unfold wrap_c_int, INT_MIN, INT_MAX. intros H.
  rewrite Z.mod_small by lia. lia.
Qed.

Lemma step_bounded_range (dy : R) :
  step_bounded dy -> -2147483147 <= dy <= 2147483147.
Proof.
  unfold step_bounded. change (INT_MAX - HEIGHT)%Z with 2147483147%Z.
  intros H. unfold Rabs in H. destruct (Rcase_abs dy); lra.
Qed.

(** On a paddle inside the field and a bounded step, the method on C
    [int]s does not raise and returns what the clamps over unbounded
    integers return. *)
Lemma move_by_checked_agrees (p : Paddle) (dy : R) :
  paddle_sized p -> paddle_in_field p -> step_bounded dy ->
  move_by_checked p dy = Some (move_by p dy).
Proof.
  intros [_ Hh] [H0 H1] Hb. apply step_bounded_range in Hb.
  unfold rect_top, rect_bottom in H0, H1. rewrite Hh in H1.
  unfold PADDLE_H, HEIGHT in H1.
  unfold move_by_checked, move_by.
  set (v := py_int (IZR (rect_y (rect p)) + dy)).
  pose proof (py_int_close (IZR (rect_y (rect p)) + dy)) as [C1 C2].
  fold v in C1, C2.
  assert (Y0 : 0 <= IZR (rect_y (rect p))) by (apply IZR_le, H0).
  assert (Y1 : IZR (rect_y (rect p)) <= 400) by (apply IZR_le; lia).
  assert (V1 : (-2147483148 <= v)%Z).
  { apply IZR_pred_lt_le. lra. }
  assert (V2 : (v <= 2147483547)%Z).
  { apply IZR_lt_succ_le. lra. }
  assert (Hok : c_int_ok v = true).
  { unfold c_int_ok, INT_MIN, INT_MAX.
    apply andb_true_intro. split; apply Z.leb_le; lia. }
  rewrite Hok. cbv zeta. f_equal. f_equal.
  unfold rect_top, rect_set_top, rect_set_y; simpl.
  assert (Hbot : forall y, (0 <= y <= 2147483547)%Z ->
            rect_bottom_c (mkRect (rect_x (rect p)) y (rect_w (rect p))
                             (rect_h (rect p)))
            = rect_bottom (mkRect (rect_x (rect p)) y (rect_w (rect p))
                             (rect_h (rect p)))).
  { intros y Hy. unfold rect_bottom_c, rect_bottom; simpl. rewrite Hh.
    apply wrap_c_int_id. unfold INT_MIN, INT_MAX, PADDLE_H. lia. }
  assert (Hw : wrap_c_int (HEIGHT - rect_h (rect p))
               = (HEIGHT - rect_h (rect p))%Z).
  { apply wrap_c_int_id. rewrite Hh.
    unfold INT_MIN, INT_MAX, HEIGHT, PADDLE_H. lia. }
  destruct (Z.ltb_spec v 0) as [Hneg | Hpos].
  - rewrite Hbot by lia.
    destruct (rect_bottom _ >? HEIGHT)%Z; [| reflexivity].
    unfold rect_set_bottom_c, rect_set_bottom, rect_set_y.
    cbn [rect_x rect_y rect_w rect_h]. rewrite Hw. reflexivity.
  - rewrite Hbot by lia.
    destruct (rect_bottom _ >? HEIGHT)%Z; [| reflexivity].
    unfold rect_set_bottom_c, rect_set_bottom, rect_set_y.
    cbn [rect_x rect_y rect_w rect_h]. rewrite Hw. reflexivity.
Qed.

(** The steps the loop passes to [move_by] are bounded: the AI's clamped
    step and the player's speed. *)
Lemma ai_move_bounded (diff : R) : step_bounded (ai_move diff).
Proof.
  unfold step_bounded, ai_move, AI_MAX_SPEED.
  change (INT_MAX - HEIGHT)%Z with 2147483147%Z. simpl.
  apply Rabs_le. split.
  - apply Rle_trans with (-5); [lra | apply Rmax_l].
  - apply Rmax_lub; [lra |].
    apply Rle_trans with 5; [apply Rmin_l | lra].
Qed.

Lemma player_step_bounded :
  step_bounded (IZR PLAYER_SPEED) /\ step_bounded (IZR (- PLAYER_SPEED)).
Proof.
  unfold step_bounded, PLAYER_SPEED.
  change (INT_MAX - HEIGHT)%Z with 2147483147%Z.
  split; apply Rabs_le; simpl; lra.
Qed.

(** Every [move_by] call of the loop, on a paddle of the constructor's
    size inside the field, is therefore the same on C [int]s. *)
Lemma loop_steps_checked (p : Paddle) (diff : R) :
  paddle_sized p -> paddle_in_field p ->
  move_by_checked p (ai_move diff) = Some (move_by p (ai_move diff)) /\
  move_by_checked p (IZR PLAYER_SPEED) = Some (move_by p (IZR PLAYER_SPEED)) /\
  move_by_checked p (IZR (- PLAYER_SPEED))
  = Some (move_by p (IZR (- PLAYER_SPEED))).
Proof.
  intros Hs Hin. destruct player_step_bounded as [H1 H2].
  repeat split; apply move_by_checked_agrees;
    auto using ai_move_bounded.
Qed.





(** ** The loop: what each part of an iteration touches *)

Lemma handle_event_right_paddle (o : Oracle) (g : Game) (e : Event) :
  right_paddle (handle_event o g e) = right_paddle g.
Proof. destruct e as [| [| | |] | |]; reflexivity. Qed.

Lemma handle_events_right_paddle (o : Oracle) (evs : list Event) (g : Game) :
  right_paddle (handle_events o g evs) = right_paddle g.
Proof.
  unfold handle_events. revert g.
  induction evs as [| e rest IH]; intros g; simpl; [reflexivity |].
  rewrite IH. apply handle_event_right_paddle.
Qed.

Lemma handle_keys_frame (g : Game) (i : Input) :
  right_paddle (handle_keys g i) = right_paddle g /\
  ball (handle_keys g i) = ball g /\
  left_score (handle_keys g i) = left_score g /\
  right_score (handle_keys g i) = right_score g /\
  running (handle_keys g i) = running g /\
  paused (handle_keys g i) = paused g /\
  draws_used (handle_keys g i) = draws_used g.
Proof.
  unfold handle_keys. destruct (key_up i), (key_down i); simpl; auto 10.
Qed.

Lemma apply_input_right_paddle (o : Oracle) (g : Game) (i : Input) :
  right_paddle (apply_input o g i) = right_paddle g.
Proof.
  unfold apply_input. destruct (handle_keys_frame (handle_events o g (events i)) i)
    as (H & _). rewrite H. apply handle_events_right_paddle.
Qed.

Lemma update_ai_frame (g : Game) :
  left_paddle (update_ai g) = left_paddle g /\
  ball (update_ai g) = ball g /\
  left_score (update_ai g) = left_score g /\
  right_score (update_ai g) = right_score g /\
  running (update_ai g) = running g /\
  paused (update_ai g) = paused g /\
  draws_used (update_ai g) = draws_used g.
Proof.
  unfold update_ai. destruct (Rgt_dec (Rabs (ai_diff g)) 4); simpl; auto 10.
Qed.

Lemma physics_frame (g : Game) :
  left_paddle (physics g) = left_paddle g /\
  right_paddle (physics g) = right_paddle (update_ai g) /\
  left_score (physics g) = left_score g /\
  right_score (physics g) = right_score g /\
  running (physics g) = running g /\
  paused (physics g) = paused g /\
  draws_used (physics g) = draws_used g.
Proof.
  destruct (update_ai_frame g) as (H1 & H2 & H3 & H4 & H5 & H6 & H7).
  unfold physics; simpl. auto 10.
Qed.

Lemma scoring_frame (o : Oracle) (g : Game) :
  left_paddle (scoring o g) = left_paddle g /\
  right_paddle (scoring o g) = right_paddle g /\
  running (scoring o g) = running g /\
  paused (scoring o g) = paused g.
Proof.
  unfold scoring.
  destruct (Rle_dec (ball_x (ball g) - ball_r (ball g)) 0);
    [| destruct (Rge_dec (ball_x (ball g) + ball_r (ball g)) (IZR WIDTH))];
    simpl; auto.
Qed.

Lemma handle_events_no_reset (o : Oracle) (evs : list Event) (g : Game) :
  forallb (fun e => negb (is_reset e)) evs = true ->
  frozen g (handle_events o g evs) /\
  draws_used (handle_events o g evs) = draws_used g.
Proof.
  unfold handle_events, frozen. revert g.
  induction evs as [| e rest IH]; intros g H; simpl in *.
  - auto.
  - apply andb_prop in H. destruct H as [He Hrest].
    destruct (IH (handle_event o g e) Hrest) as ((Hb & Hl & Hr) & Hd).
    rewrite Hb, Hl, Hr, Hd.
    destruct e as [| [| | |] | |]; simpl in *; try discriminate; auto.
Qed.

Lemma handle_events_quiet (o : Oracle) (evs : list Event) (g : Game) :
  forallb (fun e => negb (is_reset e) && negb (is_toggle e)) evs = true ->
  paused (handle_events o g evs) = paused g.
Proof.
  unfold handle_events. revert g.
  induction evs as [| e rest IH]; intros g H; simpl in *.
  - reflexivity.
  - apply andb_prop in H. destruct H as [He Hrest].
    rewrite (IH _ Hrest).
    destruct e as [| [| | |] | |]; simpl in *; try discriminate; auto.
Qed.

Lemma quiet_no_reset (i : Input) : quiet i -> no_reset i.
Proof.
  unfold quiet, no_reset. induction (events i) as [| e rest IH]; simpl; auto.
  intros H. apply andb_prop in H. destruct H as [He Hr].
  apply andb_prop in He. destruct He as [He _].
  rewrite He, (IH Hr). reflexivity.
Qed.

Lemma apply_input_no_reset (o : Oracle) (g : Game) (i : Input) :
  no_reset i ->
  frozen g (apply_input o g i) /\
  draws_used (apply_input o g i) = draws_used g.
Proof.
  intros H. unfold apply_input.
  destruct (handle_events_no_reset o (events i) g H) as ((Hb & Hl & Hr) & Hd).
  destruct (handle_keys_frame (handle_events o g (events i)) i)
    as (_ & Kb & Kl & Kr & _ & _ & Kd).
  unfold frozen. rewrite Kb, Kl, Kr, Kd. auto.
Qed.

Lemma tick_paused (o : Oracle) (g : Game) (i : Input) :
  paused (apply_input o g i) = true -> tick o g i = apply_input o g i.
Proof. intros H. unfold tick. rewrite H. reflexivity. Qed.

Lemma tick_running (o : Oracle) (g : Game) (i : Input) :
  paused (apply_input o g i) = false ->
  tick o g i = scoring o (physics (apply_input o g i)).
Proof. intros H. unfold tick. rewrite H. reflexivity. Qed.

Lemma tick_quiet_paused (o : Oracle) (g : Game) (i : Input) :
  paused g = true -> quiet i ->
  frozen g (tick o g i) /\ paused (tick o g i) = true /\
  right_paddle (tick o g i) = right_paddle g.
Proof.
  intros Hp Hq.
  assert (Hp1 : paused (apply_input o g i) = true).
  { unfold apply_input.
    destruct (handle_keys_frame (handle_events o g (events i)) i)
      as (_ & _ & _ & _ & _ & K & _).
    rewrite K, (handle_events_quiet o _ g Hq). exact Hp. }
  rewrite (tick_paused o g i Hp1).
  split; [apply (apply_input_no_reset o g i (quiet_no_reset i Hq)) |].
  split; [exact Hp1 | apply apply_input_right_paddle].
Qed.

Lemma main_loop_quiet_paused (o : Oracle) (inputs : list Input) (g : Game) :
  paused g = true -> Forall quiet inputs ->
  frozen g (main_loop o g inputs) /\ paused (main_loop o g inputs) = true /\
  right_paddle (main_loop o g inputs) = right_paddle g.
Proof.
  revert g. induction inputs as [| i rest IH]; intros g Hp Hq; simpl.
  - unfold frozen; auto.
  - destruct (running g); [| unfold frozen; auto].
    inversion Hq as [| ? ? Hi Hrest]; subst.
    destruct (tick_quiet_paused o g i Hp Hi) as ((Hb & Hl & Hr) & Hp' & Hrp).
    destruct (IH (tick o g i) Hp' Hrest) as ((Hb2 & Hl2 & Hr2) & Hp2 & Hrp2).
    unfold frozen. rewrite Hb2, Hl2, Hr2, Hrp2. auto.
Qed.

(** ** Pause *)

(** C7: while the pause flag is set, an iteration leaves the ball (position,
    velocity and the rest of its attributes), both scores and the AI paddle
    unchanged: this holds for one iteration that reaches the pause test with
    the flag set and saw no reset key, and for any number of iterations
    whose events contain neither the pause key nor the reset key.  When the
    pause key arrives, the same iteration runs the AI, advances the ball
    from where it was frozen, resolves collisions and scoring. *)
Theorem pause_freezes_physics (o : Oracle) (g : Game) :
  paused g = true ->
  (forall i, no_reset i -> paused (apply_input o g i) = true ->
     frozen g (tick o g i) /\ right_paddle (tick o g i) = right_paddle g) /\
  (forall inputs, Forall quiet inputs ->
     frozen g (main_loop o g inputs) /\
     right_paddle (main_loop o g inputs) = right_paddle g /\
     paused (main_loop o g inputs) = true) /\
  (forall i, events i = [KEYDOWN K_SPACE] ->
     let g1 := handle_keys (set_paused g false) i in
     paused (tick o g i) = false /\
     tick o g i = scoring o (physics g1) /\
     ball (physics g1) =
       paddle_collision (left_paddle g1) (right_paddle (update_ai g1))
         (wall_collision (update (ball g)))).
Proof.
  intros Hp. split; [| split].
  - intros i Hnr Hp1. rewrite (tick_paused o g i Hp1).
    split; [apply (apply_input_no_reset o g i Hnr)
           | apply apply_input_right_paddle].
  - intros inputs Hq.
    destruct (main_loop_quiet_paused o inputs g Hp Hq) as (H1 & H2 & H3). auto.
  - intros i Hev g1.
    assert (Hg1 : apply_input o g i = g1).
    { unfold apply_input. rewrite Hev. simpl. rewrite Hp. reflexivity. }
    assert (Hp1 : paused g1 = false).
    { subst g1. destruct (handle_keys_frame (set_paused g false) i)
        as (_ & _ & _ & _ & _ & K & _). rewrite K. reflexivity. }
    assert (Ht : tick o g i = scoring o (physics g1)).
    { rewrite <- Hg1 in Hp1. rewrite (tick_running o g i Hp1), Hg1. reflexivity. }
    split; [| split; [exact Ht |]].
    + rewrite Ht.
      destruct (scoring_frame o (physics g1)) as (_ & _ & _ & K). rewrite K.
      destruct (physics_frame g1) as (_ & _ & _ & _ & _ & K' & _).
      rewrite K'. exact Hp1.
    + destruct (update_ai_frame g1) as (L & B & _).
      destruct (handle_keys_frame (set_paused g false) i) as (_ & B' & _).
      unfold physics; simpl. rewrite L, B. fold g1 in B'. rewrite B'.
      reflexivity.
Qed.

Lemma pause_freezes_physics_witness :
  paused paused_start = true /\
  frozen paused_start
    (main_loop flat_oracle paused_start
       [mkInput [MOUSEMOTION 5 100] true false; mkInput [] false true;
        mkInput [OtherEvent; KEYDOWN K_other] false false]).
Proof.
  split; [reflexivity |].
  apply (proj1 (proj2 (pause_freezes_physics flat_oracle paused_start eq_refl))).
  repeat constructor.
Defined.

Lemma handle_events_left_paddle (o : Oracle) (evs : list Event) (g : Game) :
  left_paddle (handle_events o g evs)
  = fold_left left_after_event evs (left_paddle g).
Proof.
  unfold handle_events. revert g.
  induction evs as [| e rest IH]; intros g; simpl; [reflexivity |].
  rewrite IH. f_equal. destruct e as [| [| | |] | |]; reflexivity.
Qed.

Lemma apply_input_left_paddle (o : Oracle) (g : Game) (i : Input) :
  left_paddle (apply_input o g i) = left_after_input (left_paddle g) i.
Proof.
  unfold apply_input, left_after_input, left_after_keys, handle_keys.
  rewrite <- (handle_events_left_paddle o (events i) g).
  destruct (key_up i), (key_down i); reflexivity.
Qed.

Lemma left_after_input_keeps (p : Paddle) (i : Input) :
  paddle_sized p -> paddle_in_field p ->
  paddle_sized (left_after_input p i) /\ paddle_in_field (left_after_input p i).
Proof.
  intros Hs Hin. unfold left_after_input.
  assert (H : paddle_sized (fold_left left_after_event (events i) p) /\
              paddle_in_field (fold_left left_after_event (events i) p)).
  { revert p Hs Hin. induction (events i) as [| e rest IH]; intros p Hs Hin;
      simpl; [auto |].
    destruct e as [| k | mx my |]; simpl; try (apply IH; assumption).
    destruct (apply_call_keeps p (CallMoveTo (IZR my)) Hs Hin).
    apply IH; assumption. }
  destruct H as [Hs1 Hin1]. unfold left_after_keys.
  set (q := fold_left left_after_event (events i) p) in *.
  assert (H1 : paddle_sized (if key_up i then move_by q (IZR (- speed q)) else q)
            /\ paddle_in_field (if key_up i then move_by q (IZR (- speed q)) else q)).
  { destruct (key_up i); [| auto].
    apply (apply_call_keeps q (CallMoveBy _) Hs1 Hin1). }
  destruct H1 as [Hs2 Hin2].
  destruct (key_down i); [| auto].
  apply (apply_call_keeps _ (CallMoveBy _) Hs2 Hin2).
Qed.

(** C10: input is applied before the pause test, so an iteration that is
    paused at the test still moves the left paddle: mouse motions through
    [move_to] and the held Up/Down keys through [move_by], the result
    staying inside the field; the right paddle does not move, and (unless
    the reset key was among the events) the ball and the scores are
    unchanged. *)
Theorem paused_input_moves_left_paddle (o : Oracle) (g : Game) (i : Input) :
  paused (apply_input o g i) = true ->
  let g' := tick o g i in
  left_paddle g' = left_after_input (left_paddle g) i /\
  (forall mx my, events i = [MOUSEMOTION mx my] -> key_up i = false ->
     key_down i = false -> left_paddle g' = move_to (left_paddle g) (IZR my)) /\
  (events i = [] -> key_up i = true -> key_down i = false ->
     left_paddle g' = move_by (left_paddle g) (IZR (- speed (left_paddle g)))) /\
  (events i = [] -> key_up i = false -> key_down i = true ->
     left_paddle g' = move_by (left_paddle g) (IZR (speed (left_paddle g)))) /\
  (paddle_sized (left_paddle g) -> paddle_in_field (left_paddle g) ->
     paddle_in_field (left_paddle g')) /\
  right_paddle g' = right_paddle g /\
  (no_reset i -> frozen g g').
Proof.
  intros Hp g'. subst g'. rewrite (tick_paused o g i Hp).
  rewrite apply_input_left_paddle, apply_input_right_paddle.
  split; [reflexivity |].
  split; [| split; [| split; [| split; [| split]]]].
  - intros mx my He Hu Hd.
    unfold left_after_input, left_after_keys. rewrite He, Hu, Hd. reflexivity.
  - intros He Hu Hd.
    unfold left_after_input, left_after_keys. rewrite He, Hu, Hd. reflexivity.
  - intros He Hu Hd.
    unfold left_after_input, left_after_keys. rewrite He, Hu, Hd. reflexivity.
  - intros Hs Hin. apply (left_after_input_keeps _ i Hs Hin).
  - reflexivity.
  - intros Hnr. apply (apply_input_no_reset o g i Hnr).
Qed.

Lemma py_int_plus_IZR (a b : Z) : py_int (IZR a + IZR b) = (a + b)%Z.
Proof. rewrite <- plus_IZR. apply py_int_IZR. Qed.

Lemma paused_input_moves_left_paddle_witness :
  paused (apply_input flat_oracle paused_start (mkInput [] true false)) = true /\
  rect_top (rect (left_paddle paused_start)) = 200%Z /\
  rect_top (rect (left_paddle
                    (tick flat_oracle paused_start (mkInput [] true false))))
  = 193%Z.
Proof.
  split; [reflexivity |]. split; [reflexivity |].
  destruct (paused_input_moves_left_paddle flat_oracle paused_start
              (mkInput [] true false) eq_refl) as (_ & _ & H & _).
  rewrite (H eq_refl eq_refl eq_refl).
  unfold rect_top. rewrite move_by_top.
  cbv zeta. rewrite py_int_plus_IZR. reflexivity.
Defined.

(** ** The AI paddle *)

Lemma ai_move_range (diff : R) :
  IZR (- AI_MAX_SPEED) <= ai_move diff <= IZR AI_MAX_SPEED.
Proof.
  unfold ai_move. split.
  - apply Rmax_l.
  - apply Rmax_lub; [unfold AI_MAX_SPEED; simpl; lra | apply Rmin_l].
Qed.

(** A call [move_by(dy)] with [|dy| <= n] (an integer bound) on a paddle
    inside the field moves its top by at most [n]. *)
Lemma move_by_displacement (p : Paddle) (dy : R) (n : Z) :
  paddle_in_field p -> - IZR n <= dy <= IZR n ->
  (Z.abs (rect_top (rect (move_by p dy)) - rect_top (rect p)) <= n)%Z.
Proof.
  unfold paddle_in_field, rect_top, rect_bottom. intros [H0 H1] [Hlo Hhi].
  rewrite move_by_top. cbv zeta.
  set (y := rect_y (rect p)) in *. set (h := rect_h (rect p)) in *.
  set (z := py_int (IZR y + dy)).
  pose proof (py_int_close (IZR y + dy)) as [Hc1 Hc2]. fold z in Hc1, Hc2.
  assert (Hz1 : (y - n <= z)%Z).
  { apply IZR_pred_lt_le. rewrite minus_IZR. lra. }
  assert (Hz2 : (z <= y + n)%Z).
  { apply IZR_lt_succ_le. rewrite plus_IZR. lra. }
  destruct (Z.ltb_spec z 0);
    match goal with |- context [(?a >? ?b)%Z] =>
      pose proof (Zgt_cases a b); destruct (a >? b)%Z end; lia.
Qed.

(** C8: in every iteration that is not paused, with
    [diff = ball.y - (right paddle centre)] read after the input was
    applied, the right paddle becomes [move_by(clamp(diff, -AI_MAX_SPEED,
    AI_MAX_SPEED))] of itself when [|diff| > 4] and is left alone when
    [|diff| <= 4]; a paused iteration leaves it alone too.  In every case
    its top moves by at most [AI_MAX_SPEED] pixels in the iteration. *)
Theorem ai_paddle_speed_cap (o : Oracle) (g : Game) (i : Input) :
  paddle_in_field (right_paddle g) ->
  let g1 := apply_input o g i in
  let diff := ai_diff g1 in
  let rp := right_paddle g in
  let rp' := right_paddle (tick o g i) in
  (paused g1 = false -> Rabs diff > 4 ->
     rp' = move_by rp
             (Rmax (IZR (- AI_MAX_SPEED)) (Rmin (IZR AI_MAX_SPEED) diff))) /\
  (paused g1 = false -> Rabs diff <= 4 -> rp' = rp) /\
  (paused g1 = true -> rp' = rp) /\
  (Z.abs (rect_top (rect rp') - rect_top (rect rp)) <= AI_MAX_SPEED)%Z.
Proof.
  intros Hin g1 diff rp rp'.
  assert (Hrp1 : right_paddle g1 = rp) by apply apply_input_right_paddle.
  assert (Hrun : paused g1 = false -> rp' = right_paddle (update_ai g1)).
  { intros Hp. subst rp'. rewrite (tick_running o g i Hp). fold g1.
    destruct (scoring_frame o (physics g1)) as (_ & K & _). rewrite K.
    destruct (physics_frame g1) as (_ & K' & _). exact K'. }
  assert (Hbig : paused g1 = false -> Rabs diff > 4 ->
                 rp' = move_by rp (ai_move diff)).
  { intros Hp Hd. rewrite (Hrun Hp). unfold update_ai. fold diff.
    destruct (Rgt_dec (Rabs diff) 4); [| contradiction].
    simpl. rewrite Hrp1. reflexivity. }
  assert (Hsmall : paused g1 = false -> Rabs diff <= 4 -> rp' = rp).
  { intros Hp Hd. rewrite (Hrun Hp). unfold update_ai. fold diff.
    destruct (Rgt_dec (Rabs diff) 4); [lra | exact Hrp1]. }
  assert (Hpause : paused g1 = true -> rp' = rp).
  { intros Hp. subst rp'. rewrite (tick_paused o g i Hp). exact Hrp1. }
  split; [exact Hbig |]. split; [exact Hsmall |]. split; [exact Hpause |].
  assert (Hstill : rp' = rp ->
            (Z.abs (rect_top (rect rp') - rect_top (rect rp)) <= AI_MAX_SPEED)%Z).
  { intros ->. rewrite Z.sub_diag. unfold AI_MAX_SPEED. simpl. lia. }
  destruct (paused g1) eqn:Hp; [auto |].
  destruct (Rgt_dec (Rabs diff) 4) as [Hd | Hd].
  - rewrite (Hbig eq_refl Hd).
    apply move_by_displacement; [exact Hin |].
    pose proof (ai_move_range diff) as Hr. rewrite opp_IZR in Hr. exact Hr.
  - apply Hstill, Hsmall; [reflexivity | lra].
Qed.

(** Evaluates the integer expressions under [IZR] in the goal. *)
Ltac IZR_eval :=
  repeat match goal with
         | |- context [IZR ?z] =>
             let v := eval vm_compute in z in
             progress change (IZR z) with (IZR v)
         end.

Lemma ai_paddle_speed_cap_witness :
  paddle_in_field (right_paddle high_ball_game) /\
  rect_top (rect (right_paddle high_ball_game)) = 200%Z /\
  rect_top (rect (right_paddle (tick flat_oracle high_ball_game no_input)))
  = 195%Z.
Proof.
  assert (Hin : paddle_in_field (right_paddle high_ball_game))
    by (unfold paddle_in_field; vm_compute; split; discriminate).
  split; [exact Hin |]. split; [reflexivity |].
  assert (Hdiff : ai_diff (apply_input flat_oracle high_ball_game no_input)
                  = -150).
  { unfold ai_diff; simpl. IZR_eval. lra. }
  destruct (ai_paddle_speed_cap flat_oracle high_ball_game no_input Hin)
    as (H & _).
  rewrite H; [| reflexivity | rewrite Hdiff, Rabs_left by lra; lra].
  rewrite Hdiff, Rmin_right, Rmax_left
    by (unfold AI_MAX_SPEED; simpl; lra).
  unfold rect_top. rewrite move_by_top. cbv zeta.
  change (rect_y (rect (right_paddle high_ball_game))) with 200%Z.
  rewrite py_int_plus_IZR. reflexivity.
Defined.

(** ** Determinism *)

Lemma handle_event_draws (o : Oracle) (g : Game) (e : Event) :
  (is_reset e = true /\ draws_used (handle_event o g e) = S (draws_used g)) \/
  (is_reset e = false /\ draws_used (handle_event o g e) = draws_used g /\
   forall o', handle_event o' g e = handle_event o g e).
Proof.
  destruct e as [| [| | |] | |]; simpl; auto.
Qed.

Lemma handle_events_draws_mono (o : Oracle) (evs : list Event) (g : Game) :
  (draws_used g <= draws_used (handle_events o g evs))%nat.
Proof.
  unfold handle_events. revert g.
  induction evs as [| e rest IH]; intros g; simpl; [lia |].
  specialize (IH (handle_event o g e)).
  destruct (handle_event_draws o g e) as [[_ H] | [_ [H _]]]; lia.
Qed.

Lemma handle_events_same_draws (o1 o2 : Oracle) (evs : list Event) (g : Game) :
  draws_used (handle_events o1 g evs) = draws_used g ->
  handle_events o2 g evs = handle_events o1 g evs.
Proof.
  revert g. induction evs as [| e rest IH]; intros g H; [reflexivity |].
  change (handle_events o1 g (e :: rest))
    with (handle_events o1 (handle_event o1 g e) rest) in *.
  change (handle_events o2 g (e :: rest))
    with (handle_events o2 (handle_event o2 g e) rest).
  pose proof (handle_events_draws_mono o1 rest (handle_event o1 g e)) as Hm.
  destruct (handle_event_draws o1 g e) as [[_ Hd] | [_ [Hd Ho]]]; [lia |].
  rewrite (Ho o2). apply IH. lia.
Qed.

Lemma scoring_draws (o : Oracle) (g : Game) :
  (draws_used (scoring o g) = S (draws_used g)) \/
  (draws_used (scoring o g) = draws_used g /\ forall o', scoring o' g = g).
Proof.
  unfold scoring.
  destruct (Rle_dec (ball_x (ball g) - ball_r (ball g)) 0);
    [| destruct (Rge_dec (ball_x (ball g) + ball_r (ball g)) (IZR WIDTH))];
    simpl; auto.
Qed.

Lemma apply_input_draws (o : Oracle) (g : Game) (i : Input) :
  draws_used (apply_input o g i) = draws_used (handle_events o g (events i)).
Proof.
  unfold apply_input.
  destruct (handle_keys_frame (handle_events o g (events i)) i)
    as (_ & _ & _ & _ & _ & _ & K). exact K.
Qed.

Lemma tick_draws_mono (o : Oracle) (g : Game) (i : Input) :
  (draws_used (apply_input o g i) <= draws_used (tick o g i))%nat.
Proof.
  unfold tick. destruct (paused (apply_input o g i)); [lia |].
  destruct (physics_frame (apply_input o g i)) as (_ & _ & _ & _ & _ & _ & K).
  destruct (scoring_draws o (physics (apply_input o g i))) as [H | [H _]];
    rewrite H, K; lia.
Qed.

Lemma reflect_deterministic (b1 b2 : Ball) (p1 p2 : Paddle) (l : bool) :
  ball_y b1 = ball_y b2 -> ball_vx b1 = ball_vx b2 -> ball_vy b1 = ball_vy b2 ->
  rect_top (rect p1) = rect_top (rect p2) ->
  rect_height (rect p1) = rect_height (rect p2) ->
  ball_vx (reflect_ball_from_paddle b1 p1 l)
  = ball_vx (reflect_ball_from_paddle b2 p2 l) /\
  ball_vy (reflect_ball_from_paddle b1 p1 l)
  = ball_vy (reflect_ball_from_paddle b2 p2 l) /\
  ball_speed (reflect_ball_from_paddle b1 p1 l)
  = ball_speed (reflect_ball_from_paddle b2 p2 l).
Proof.
  intros Hy Hvx Hvy Ht Hh. unfold reflect_ball_from_paddle; simpl.
  rewrite Hy, Hvx, Hvy, Ht, Hh. auto.
Qed.

(** C9: [reflect_ball_from_paddle] yields the same velocity and speed for
    any two balls with the same [y], [vx], [vy] and any two paddles with the
    same vertical geometry (top and height) on the same side; and an
    iteration in which [Ball.reset] is not called (no draw is consumed)
    produces the same successor state whatever the random source holds. *)
Theorem deterministic_without_reset (o1 o2 : Oracle) (g : Game) (i : Input)
    (b1 b2 : Ball) (p1 p2 : Paddle) (l : bool) :
  (ball_y b1 = ball_y b2 -> ball_vx b1 = ball_vx b2 ->
   ball_vy b1 = ball_vy b2 ->
   rect_top (rect p1) = rect_top (rect p2) ->
   rect_height (rect p1) = rect_height (rect p2) ->
   ball_vx (reflect_ball_from_paddle b1 p1 l)
   = ball_vx (reflect_ball_from_paddle b2 p2 l) /\
   ball_vy (reflect_ball_from_paddle b1 p1 l)
   = ball_vy (reflect_ball_from_paddle b2 p2 l) /\
   ball_speed (reflect_ball_from_paddle b1 p1 l)
   = ball_speed (reflect_ball_from_paddle b2 p2 l)) /\
  (draws_used (tick o1 g i) = draws_used g -> tick o2 g i = tick o1 g i).
Proof.
  split; [apply reflect_deterministic |].
  intros H.
  pose proof (tick_draws_mono o1 g i) as Hm.
  pose proof (handle_events_draws_mono o1 (events i) g) as Hm'.
  rewrite apply_input_draws in Hm.
  assert (He : handle_events o2 g (events i) = handle_events o1 g (events i))
    by (apply handle_events_same_draws; lia).
  assert (Ha : apply_input o2 g i = apply_input o1 g i)
    by (unfold apply_input; rewrite He; reflexivity).
  unfold tick in *. rewrite Ha.
  destruct (paused (apply_input o1 g i)); [reflexivity |].
  destruct (physics_frame (apply_input o1 g i)) as (_ & _ & _ & _ & _ & _ & K).
  rewrite apply_input_draws in K.
  destruct (scoring_draws o1 (physics (apply_input o1 g i))) as [Hs | [_ Hs]].
  - lia.
  - rewrite (Hs o1), (Hs o2). reflexivity.
Qed.

(** ** Invariants of the loop *)

Lemma reset_core (self : Ball) (serving_to : option Side) (d : Draw) :
  ball_core (reset self serving_to d) /\ ball_inside (reset self serving_to d).
Proof.
  unfold ball_core, ball_inside. rewrite reset_hypot.
  unfold reset; simpl. unfold BALL_SPEED, BALL_MAX_SPEED, WIDTH, BALL_RADIUS.
  repeat split; lra.
Qed.

Lemma update_core (b : Ball) : ball_core b -> ball_core (update b).
Proof. unfold ball_core, update; simpl. auto. Qed.

Lemma wall_collision_core (b : Ball) : ball_core b -> ball_core (wall_collision b).
Proof.
  unfold ball_core. intros (Hr & Hs & Hb).
  destruct (wall_collision_speed b) as (H1 & H2 & _).
  rewrite H1, H2. repeat split; try tauto.
  unfold wall_collision.
  destruct (Rle_dec (ball_y b - ball_r b) 0);
    [| destruct (Rge_dec (ball_y b + ball_r b) (IZR HEIGHT))]; simpl; exact Hr.
Qed.

Lemma reflect_core (b : Ball) (p : Paddle) (l : bool) (v : R) :
  ball_core b -> ball_core (reflect_ball_from_paddle (set_ball_x b v) p l).
Proof.
  unfold ball_core. intros (Hr & Hs & Hlo & Hhi).
  rewrite reflect_hypot. rewrite reflect_unfold; simpl.
  repeat split; auto.
  - unfold rebound_speed; simpl. rewrite <- Hs.
    unfold BALL_SPEED_INC, BALL_MAX_SPEED, BALL_SPEED in *.
    apply Rmin_glb; lra.
  - apply Rmin_l.
Qed.

Lemma paddle_collision_core (lp rp : Paddle) (b : Ball) :
  ball_core b -> ball_core (paddle_collision lp rp b).
Proof.
  intros H. unfold paddle_collision.
  set (b1 := if circle_rect_collision _ _ _ (rect lp) then _ else b).
  assert (H1 : ball_core b1).
  { subst b1. destruct (circle_rect_collision _ _ _ (rect lp));
      [apply reflect_core |]; exact H. }
  destruct (circle_rect_collision _ _ _ (rect rp));
    [apply reflect_core |]; exact H1.
Qed.

Lemma physics_ball (g : Game) :
  ball (physics g) =
  paddle_collision (left_paddle g) (right_paddle (update_ai g))
    (wall_collision (update (ball g))).
Proof.
  destruct (update_ai_frame g) as (L & B & _).
  unfold physics; simpl. rewrite L, B. reflexivity.
Qed.

Lemma physics_core (g : Game) : ball_core (ball g) -> ball_core (ball (physics g)).
Proof.
  intros H. rewrite physics_ball.
  apply paddle_collision_core, wall_collision_core, update_core, H.
Qed.

Lemma handle_events_core (o : Oracle) (evs : list Event) (g : Game) :
  ball_core (ball g) -> ball_core (ball (handle_events o g evs)).
Proof.
  unfold handle_events. revert g.
  induction evs as [| e rest IH]; intros g H; simpl; [exact H |].
  apply IH. destruct e as [| [| | |] | |]; simpl; try exact H.
  apply reset_core.
Qed.

Lemma handle_events_inside (o : Oracle) (evs : list Event) (g : Game) :
  ball_inside (ball g) -> ball_inside (ball (handle_events o g evs)).
Proof.
  unfold handle_events. revert g.
  induction evs as [| e rest IH]; intros g H; simpl; [exact H |].
  apply IH. destruct e as [| [| | |] | |]; simpl; try exact H.
  apply reset_core.
Qed.

Lemma apply_input_ball (o : Oracle) (g : Game) (i : Input) :
  ball (apply_input o g i) = ball (handle_events o g (events i)).
Proof.
  unfold apply_input.
  destruct (handle_keys_frame (handle_events o g (events i)) i) as (_ & K & _).
  exact K.
Qed.

Lemma update_ai_right_x (g : Game) :
  rect_x (rect (right_paddle (update_ai g))) = rect_x (rect (right_paddle g)).
Proof.
  unfold update_ai. destruct (Rgt_dec (Rabs (ai_diff g)) 4); simpl; [| reflexivity].
  apply move_by_size.
Qed.

Lemma left_after_input_x (p : Paddle) (i : Input) :
  rect_x (rect (left_after_input p i)) = rect_x (rect p).
Proof.
  unfold left_after_input.
  assert (H : rect_x (rect (fold_left left_after_event (events i) p))
              = rect_x (rect p)).
  { revert p. induction (events i) as [| e rest IH]; intros p; simpl;
      [reflexivity |].
    rewrite IH. destruct e as [| k | mx my |]; reflexivity. }
  rewrite <- H. unfold left_after_keys.
  set (q := fold_left left_after_event (events i) p).
  destruct (key_up i), (key_down i);
    repeat match goal with
           | |- context [rect_x (rect (move_by ?a ?b))] =>
               rewrite (proj1 (move_by_size a b))
           end; reflexivity.
Qed.

Lemma handle_events_scores_nonneg (o : Oracle) (evs : list Event) (g : Game) :
  scores_nonneg g -> scores_nonneg (handle_events o g evs).
Proof.
  unfold handle_events. revert g.
  induction evs as [| e rest IH]; intros g H; simpl; [exact H |].
  apply IH. destruct e as [| [| | |] | |]; simpl; try exact H.
  unfold scores_nonneg; simpl. lia.
Qed.

Lemma apply_input_scores (o : Oracle) (g : Game) (i : Input) :
  left_score (apply_input o g i) = left_score (handle_events o g (events i)) /\
  right_score (apply_input o g i) = right_score (handle_events o g (events i)).
Proof.
  unfold apply_input.
  destruct (handle_keys_frame (handle_events o g (events i)) i)
    as (_ & _ & K1 & K2 & _). auto.
Qed.

Lemma apply_input_inv (o : Oracle) (g : Game) (i : Input) :
  game_inv g -> game_inv (apply_input o g i).
Proof.
  unfold game_inv. intros (Ls & Li & Rs & Ri & Bc & Bi & [Pl Pr] & Sn).
  assert (Pp : paddles_placed (apply_input o g i)).
  { unfold paddles_placed.
    rewrite apply_input_left_paddle, apply_input_right_paddle,
      left_after_input_x. auto. }
  assert (Sn' : scores_nonneg (apply_input o g i)).
  { pose proof (handle_events_scores_nonneg o (events i) g Sn) as H.
    destruct (apply_input_scores o g i) as [E1 E2].
    unfold scores_nonneg in *. rewrite E1, E2. exact H. }
  rewrite apply_input_left_paddle, apply_input_right_paddle, apply_input_ball.
  destruct (left_after_input_keeps _ i Ls Li) as [Ls' Li'].
  auto 10 using handle_events_core, handle_events_inside.
Qed.

Lemma update_ai_right_keeps (g : Game) :
  paddle_sized (right_paddle g) -> paddle_in_field (right_paddle g) ->
  paddle_sized (right_paddle (update_ai g)) /\
  paddle_in_field (right_paddle (update_ai g)).
Proof.
  intros Hs Hi. unfold update_ai.
  destruct (Rgt_dec (Rabs (ai_diff g)) 4); simpl; [| auto].
  apply (apply_call_keeps _ (CallMoveBy _) Hs Hi).
Qed.

(** The three outcomes of the scoring test. *)
Lemma scoring_cases (o : Oracle) (g : Game) :
  (exits_left (ball g) /\
   scoring o g =
   mkGame (left_paddle g) (right_paddle g)
          (reset (ball g) (Some SideRight) (o (draws_used g)))
          (left_score g) (right_score g + 1)
          (running g) (paused g) (S (draws_used g))) \/
  (~ exits_left (ball g) /\ exits_right (ball g) /\
   scoring o g =
   mkGame (left_paddle g) (right_paddle g)
          (reset (ball g) (Some SideLeft) (o (draws_used g)))
          (left_score g + 1) (right_score g)
          (running g) (paused g) (S (draws_used g))) \/
  (~ exits_left (ball g) /\ ~ exits_right (ball g) /\ scoring o g = g).
Proof.
  unfold scoring, exits_left, exits_right.
  destruct (Rle_dec (ball_x (ball g) - ball_r (ball g)) 0);
    [| destruct (Rge_dec (ball_x (ball g) + ball_r (ball g)) (IZR WIDTH))];
    auto.
Qed.

(** With the configured radius the two guards exclude each other. *)
Lemma exits_exclusive (b : Ball) :
  ball_r b = IZR BALL_RADIUS -> exits_left b -> exits_right b -> False.
Proof.
  unfold exits_left, exits_right, BALL_RADIUS, WIDTH. intros Hr H1 H2.
  rewrite Hr in *. lra.
Qed.

Lemma scoring_inv (o : Oracle) (g : Game) :
  paddle_sized (left_paddle g) -> paddle_in_field (left_paddle g) ->
  paddle_sized (right_paddle g) -> paddle_in_field (right_paddle g) ->
  ball_core (ball g) -> paddles_placed g -> scores_nonneg g ->
  game_inv (scoring o g).
Proof.
  intros Ls Li Rs Ri Bc Pp [Sl Sr]. unfold game_inv.
  destruct (reset_core (ball g) (Some SideRight) (o (draws_used g))) as [Cr Ir].
  destruct (reset_core (ball g) (Some SideLeft) (o (draws_used g))) as [Cl Il].
  assert (S1 : (0 <= left_score g + 1)%Z) by lia.
  assert (S2 : (0 <= right_score g + 1)%Z) by lia.
  destruct (scoring_cases o g) as [[_ H] | [(_ & _ & H) | (Hl & Hr & H)]];
    rewrite H; unfold scores_nonneg; simpl; auto 12.
  do 5 (split; [assumption |]).
  unfold exits_left, exits_right, ball_inside in *.
  split; [split; lra | auto].
Qed.

Lemma tick_inv (o : Oracle) (g : Game) (i : Input) :
  game_inv g -> game_inv (tick o g i).
Proof.
  intros H. apply (apply_input_inv o g i) in H.
  unfold tick. destruct (paused (apply_input o g i)); [exact H |].
  set (g1 := apply_input o g i) in *.
  destruct H as (Ls & Li & Rs & Ri & Bc & _ & [Pl Pr] & Sn).
  destruct (physics_frame g1) as (L & Rp & Sl & Sr & _).
  destruct (update_ai_right_keeps g1 Rs Ri) as [Rs' Ri'].
  apply scoring_inv; unfold paddles_placed, scores_nonneg;
    rewrite ?L, ?Rp, ?Sl, ?Sr, ?update_ai_right_x; auto using physics_core.
Qed.

Lemma initial_inv (o : Oracle) : game_inv (initial o).
Proof.
  unfold game_inv, initial; simpl.
  repeat split; try apply reset_core; try reflexivity;
    vm_compute; discriminate.
Qed.

Lemma reachable_inv (o : Oracle) (g : Game) : reachable o g -> game_inv g.
Proof.
  induction 1 as [| g i _ IH _]; [apply initial_inv | apply tick_inv, IH].
Qed.

Lemma main_loop_reachable (o : Oracle) (inputs : list Input) (g : Game) :
  reachable o g -> reachable o (main_loop o g inputs).
Proof.
  revert g. induction inputs as [| i rest IH]; intros g H; simpl; [exact H |].
  destruct (running g) eqn:Hr; [| exact H].
  apply IH. constructor; assumption.
Qed.

Lemma main_loop_inv (o : Oracle) (inputs : list Input) (g : Game) :
  game_inv g -> game_inv (main_loop o g inputs).
Proof.
  revert g. induction inputs as [| i rest IH]; intros g H; simpl; [exact H |].
  destruct (running g); [apply IH, tick_inv, H | exact H].
Qed.

(** ** Flight of a ball that was just served *)

Lemma scoring_inside (o : Oracle) (g : Game) :
  ball_inside (ball g) -> scoring o g = g.
Proof.
  unfold ball_inside, exits_left, exits_right. intros [H1 H2].
  destruct (scoring_cases o g) as [[E _] | [(_ & E & _) | (_ & _ & H)]];
    unfold exits_left, exits_right in *; [lra | lra | exact H].
Qed.

(** A circle that lies entirely to the left of a rectangle, entirely above
    it, or entirely to the right of it, does not touch it. *)
Lemma circle_rect_collision_far (cx cy r : R) (rc : Rect) :
  0 <= r ->
  cx + r < IZR (rect_left rc) \/ cy + r < IZR (rect_top rc) \/
  ((rect_left rc <= rect_right rc)%Z /\ IZR (rect_right rc) + r < cx) ->
  circle_rect_collision cx cy r rc = false.
Proof.
  intros Hr H. unfold circle_rect_collision. cbv zeta.
  pose proof (Rmax_l (IZR (rect_left rc)) (Rmin cx (IZR (rect_right rc)))) as Hx.
  pose proof (Rmax_l (IZR (rect_top rc)) (Rmin cy (IZR (rect_bottom rc)))) as Hy.
  assert (Hx' : (rect_left rc <= rect_right rc)%Z ->
                Rmax (IZR (rect_left rc)) (Rmin cx (IZR (rect_right rc)))
                <= IZR (rect_right rc)).
  { intros Hle. apply Rmax_lub; [apply IZR_le, Hle | apply Rmin_r]. }
  set (closest_x := Rmax (IZR (rect_left rc)) (Rmin cx (IZR (rect_right rc)))) in *.
  set (closest_y := Rmax (IZR (rect_top rc)) (Rmin cy (IZR (rect_bottom rc)))) in *.
  destruct (Rle_dec _ _) as [Hle | Hgt]; [| reflexivity].
  exfalso.
  pose proof (Rle_0_sqr (cx - closest_x)) as Sx.
  pose proof (Rle_0_sqr (cy - closest_y)) as Sy.
  unfold Rsqr in Sx, Sy.
  destruct H as [H | [H | [Hlr H]]].
  - assert (Hd : r * r < (cx - closest_x) * (cx - closest_x)) by nra. lra.
  - assert (Hd : r * r < (cy - closest_y) * (cy - closest_y)) by nra. lra.
  - specialize (Hx' Hlr).
    assert (Hd : r * r < (cx - closest_x) * (cx - closest_x)) by nra. lra.
Qed.

Lemma paddle_collision_none (lp rp : Paddle) (b : Ball) :
  circle_rect_collision (ball_x b) (ball_y b) (ball_r b) (rect lp) = false ->
  circle_rect_collision (ball_x b) (ball_y b) (ball_r b) (rect rp) = false ->
  paddle_collision lp rp b = b.
Proof.
  intros H1 H2. unfold paddle_collision. rewrite H1, H2. reflexivity.
Qed.

Lemma wall_collision_x (b : Ball) :
  ball_x (wall_collision b) = ball_x b /\ ball_r (wall_collision b) = ball_r b.
Proof.
  unfold wall_collision.
  destruct (Rle_dec _ 0); [| destruct (Rge_dec _ (IZR HEIGHT))]; auto.
Qed.

(** An iteration whose events contain the reset key reaches the pause test
    with a freshly served ball and both scores at zero. *)
Lemma handle_events_reset (o : Oracle) (evs : list Event) (g : Game) :
  forallb (fun e => negb (is_reset e)) evs = false ->
  exists d,
    ball (handle_events o g evs) = reset (ball g) None d /\
    left_score (handle_events o g evs) = 0%Z /\
    right_score (handle_events o g evs) = 0%Z.
Proof.
  revert g. induction evs as [| e rest IH]; intros g H; simpl in H;
    [discriminate |].
  change (handle_events o g (e :: rest))
    with (handle_events o (handle_event o g e) rest).
  destruct (forallb (fun e => negb (is_reset e)) rest) eqn:Hrest.
  - rewrite andb_true_r in H.
    destruct (handle_events_no_reset o rest (handle_event o g e) Hrest)
      as ((Hb & Hl & Hr) & _).
    rewrite Hb, Hl, Hr.
    destruct e as [| [| | |] | |]; simpl in H; try discriminate.
    exists (o (draws_used g)). simpl. auto.
  - destruct (IH (handle_event o g e) eq_refl) as (d & Hb & Hl & Hr).
    exists d. rewrite Hb. auto.
Qed.

(** One step after a serve the ball is still far from both paddles and
    from both boundaries. *)
Lemma serve_flight_inside (g : Game) (d : Draw) :
  paddle_sized (left_paddle g) -> paddles_placed g ->
  ball g = reset (ball g) None d ->
  ball_inside (ball (physics g)).
Proof.
  intros [Lw _] [Pl Pr] Hb.
  assert (Hx : ball_x (ball g) = 400)
    by (rewrite Hb; unfold reset, WIDTH; simpl; lra).
  assert (Hr : ball_r (ball g) = 8) by (rewrite Hb; reflexivity).
  assert (Hv : -5 <= ball_vx (ball g) <= 5).
  { rewrite Hb. unfold reset, choice_dir, BALL_SPEED; simpl.
    pose proof (COS_bound (draw_angle d)). destruct (draw_second d); lra. }
  rewrite physics_ball.
  set (b := wall_collision (update (ball g))).
  destruct (wall_collision_x (update (ball g))) as [Bx Br].
  fold b in Bx, Br. simpl in Bx, Br. rewrite Hr in Br.
  assert (Hin : ball_inside b)
    by (unfold ball_inside, WIDTH; rewrite Bx, Br; lra).
  rewrite paddle_collision_none; [exact Hin | |];
    apply circle_rect_collision_far; rewrite ?Br, ?Bx; try lra.
  - right. right. unfold rect_left, rect_right. rewrite Pl, Lw.
    unfold PADDLE_OFFSET, PADDLE_W. split; [lia |]. simpl. lra.
  - left. unfold rect_left. rewrite update_ai_right_x, Pr.
    unfold WIDTH, PADDLE_W, PADDLE_OFFSET. simpl. lra.
Qed.

(** ** Scoring *)

(** C2: in every iteration (from a state satisfying the loop invariant)
    the left score goes up by one exactly when the ball's right edge
    [x + r] has reached the right boundary at the scoring test, the right
    score goes up by one exactly when the ball's left edge [x - r] has
    reached the left boundary, the two edges are never both out, and the
    two scores never both go up in the same iteration.  Unless the reset
    key was pressed, a score that does not go up by one is unchanged. *)
Theorem score_conservation (o : Oracle) (g : Game) (i : Input) :
  game_inv g ->
  let g' := tick o g i in
  let b := ball_at_test o g i in
  ((left_score g' = left_score g + 1)%Z <-> exits_right b) /\
  ((right_score g' = right_score g + 1)%Z <-> exits_left b) /\
  ~ (exits_left b /\ exits_right b) /\
  ~ ((left_score g' = left_score g + 1)%Z /\
     (right_score g' = right_score g + 1)%Z) /\
  (no_reset i ->
   (left_score g' = left_score g \/ (left_score g' = left_score g + 1)%Z) /\
   (right_score g' = right_score g \/ (right_score g' = right_score g + 1)%Z)).
Proof.
  intros Hinv g' b.
  pose proof (apply_input_inv o g i Hinv) as Hinv1.
  destruct Hinv as (_ & _ & _ & _ & _ & _ & _ & [Sl Sr]).
  destruct Hinv1 as (Ls1 & _ & _ & _ & Bc & Bi & Pp1 & _).
  subst g' b. unfold ball_at_test, tick.
  set (g1 := apply_input o g i) in *.
  destruct (physics_frame g1) as (_ & _ & Hl & Hrs & _).
  pose proof (physics_core g1 Bc) as (Hr & _).
  pose proof (exits_exclusive (ball (physics g1)) Hr) as Hex.
  destruct (forallb (fun e => negb (is_reset e)) (events i)) eqn:Hnr.
  - (* no reset key: the scores reach the test unchanged *)
    destruct (apply_input_no_reset o g i Hnr) as ((_ & H1 & H2) & _).
    fold g1 in H1, H2.
    destruct (paused g1).
    + unfold ball_inside, exits_left, exits_right in *.
      rewrite H1, H2. repeat split; auto; try lia; intros; lra.
    + remember (physics g1) as m eqn:Hm.
      destruct (scoring_cases o m)
        as [[E H] | [(NE & E & H) | (NE1 & NE2 & H)]];
        rewrite H; simpl; rewrite ?Hl, ?Hrs, ?H1, ?H2;
        repeat split; auto; try lia; try tauto; intros; exfalso; lia.
  - (* reset key: both scores are zero and the served ball stays inside *)
    destruct (handle_events_reset o (events i) g Hnr) as (d & Hb & Z1 & Z2).
    destruct (apply_input_scores o g i) as [E1 E2]. fold g1 in E1, E2.
    rewrite <- E1 in Z1. rewrite <- E2 in Z2.
    assert (Hb1 : ball g1 = reset (ball g1) None d).
    { unfold g1. rewrite apply_input_ball, Hb. reflexivity. }
    assert (Hno : no_reset i -> False)
      by (unfold no_reset; rewrite Hnr; discriminate).
    destruct (paused g1).
    + unfold ball_inside, exits_left, exits_right in *.
      rewrite Z1, Z2. repeat split; try lia; try tauto; intros; lra.
    + pose proof (serve_flight_inside g1 d Ls1 Pp1 Hb1) as Hin.
      rewrite (scoring_inside o _ Hin), Hl, Hrs, Z1, Z2.
      unfold ball_inside, exits_left, exits_right in *.
      repeat split; try lia; try tauto; intros; lra.
Qed.

Lemma score_conservation_witness :
  game_inv (initial flat_oracle) /\
  ~ ((left_score (tick flat_oracle (initial flat_oracle) no_input)
      = left_score (initial flat_oracle) + 1)%Z /\
     (right_score (tick flat_oracle (initial flat_oracle) no_input)
      = right_score (initial flat_oracle) + 1)%Z).
Proof.
  split; [apply initial_inv |].
  apply (score_conservation flat_oracle (initial flat_oracle) no_input
           (initial_inv flat_oracle)).
Defined.

Lemma apply_input_ball_r (o : Oracle) (g : Game) (i : Input) :
  ball_r (ball g) = IZR BALL_RADIUS ->
  ball_r (ball (apply_input o g i)) = IZR BALL_RADIUS.
Proof.
  rewrite apply_input_ball. unfold handle_events. revert g.
  induction (events i) as [| e rest IH]; intros g H; simpl; [exact H |].
  apply IH. destruct e as [| [| | |] | |]; simpl; auto.
Qed.

Lemma paddle_collision_ball_r (lp rp : Paddle) (b : Ball) :
  ball_r (paddle_collision lp rp b) = ball_r b.
Proof.
  unfold paddle_collision.
  destruct (circle_rect_collision (ball_x b) (ball_y b) (ball_r b) (rect lp));
    match goal with |- context [if ?c then _ else _] => destruct c end;
    reflexivity.
Qed.

Lemma physics_ball_r (g : Game) : ball_r (ball (physics g)) = ball_r (ball g).
Proof.
  rewrite physics_ball, paddle_collision_ball_r. unfold wall_collision.
  destruct (Rle_dec _ 0); [| destruct (Rge_dec _ (IZR HEIGHT))]; reflexivity.
Qed.

(** The serve that follows a point: the ball is served toward the side
    that scored. *)
Lemma serve_after_point (b : Ball) (d : Draw) :
  draw_ok d ->
  0 < ball_vx (reset b (Some SideRight) d) /\
  ball_vx (reset b (Some SideLeft) d) < 0.
Proof.
  intros Hd. pose proof (serve_cos_pos d Hd).
  unfold reset, BALL_SPEED; simpl. split; nra.
Qed.

(** C1 (as the code has it): in an iteration that is not paused, when the
    ball's left edge has reached the left boundary the right score goes up
    by exactly one, the left score is unchanged and the ball is reset with
    [serving_to='right'], so that it starts from the centre with [vx > 0];
    when its right edge has reached the right boundary the left score goes
    up by exactly one, the right score is unchanged and the ball is reset
    with [serving_to='left'], centre and [vx < 0].  The serve goes toward
    the side that scored. *)
Theorem scoring_serves_toward_scorer (o : Oracle) (g : Game) (i : Input) :
  oracle_ok o ->
  ball_r (ball g) = IZR BALL_RADIUS ->
  let g1 := apply_input o g i in
  paused g1 = false ->
  let b := ball (physics g1) in
  let g' := tick o g i in
  (exits_left b ->
     (right_score g' = right_score g1 + 1)%Z /\
     left_score g' = left_score g1 /\
     ball g' = reset b (Some SideRight) (o (draws_used g1)) /\
     0 < ball_vx (ball g') /\
     ball_x (ball g') = IZR WIDTH / 2 /\ ball_y (ball g') = IZR HEIGHT / 2) /\
  (exits_right b ->
     (left_score g' = left_score g1 + 1)%Z /\
     right_score g' = right_score g1 /\
     ball g' = reset b (Some SideLeft) (o (draws_used g1)) /\
     ball_vx (ball g') < 0 /\
     ball_x (ball g') = IZR WIDTH / 2 /\ ball_y (ball g') = IZR HEIGHT / 2).
Proof.
  intros Ho Hr g1 Hp b g'.
  assert (Hrb : ball_r b = IZR BALL_RADIUS).
  { subst b. rewrite physics_ball_r. apply apply_input_ball_r, Hr. }
  pose proof (exits_exclusive b Hrb) as Hex.
  subst g'. rewrite (tick_running o g i Hp). fold g1.
  destruct (physics_frame g1) as (_ & _ & Hl & Hrs & _ & _ & Hd).
  destruct (serve_after_point b (o (draws_used g1)) (Ho _)) as [Hpos Hneg].
  subst b. remember (physics g1) as m eqn:Hm.
  destruct (scoring_cases o m)
    as [[E H] | [(NE & E & H) | (NE1 & NE2 & H)]];
    rewrite H; simpl; rewrite ?Hl, ?Hrs, ?Hd;
    split; intros E'; try tauto; auto 10.
Qed.

(** ** Evaluating an iteration on concrete states *)

Lemma update_ai_still (g : Game) : Rabs (ai_diff g) <= 4 -> update_ai g = g.
Proof.
  intros H. unfold update_ai.
  destruct (Rgt_dec (Rabs (ai_diff g)) 4); [lra | reflexivity].
Qed.

Lemma wall_collision_inside (b : Ball) :
  0 < ball_y b - ball_r b -> ball_y b + ball_r b < IZR HEIGHT ->
  wall_collision b = b.
Proof.
  intros H1 H2. unfold wall_collision.
  destruct (Rle_dec (ball_y b - ball_r b) 0); [lra |].
  destruct (Rge_dec (ball_y b + ball_r b) (IZR HEIGHT)); [lra | reflexivity].
Qed.

(** While the served ball travels toward the left boundary nothing touches
    it: an iteration moves it five pixels to the left. *)
Lemma approach_physics (x : R) :
  13 < x <= 400 ->
  scoring level_oracle (physics (approach x)) = approach (x - 5).
Proof.
  intros [Hlo Hhi].
  assert (Hai : update_ai (approach x) = approach x).
  { apply update_ai_still. unfold ai_diff; simpl. IZR_eval.
    replace (250 - (200 + 100 / 2)) with 0 by lra. rewrite Rabs_R0. lra. }
  assert (Hb : ball (physics (approach x)) = mkBall (x - 5) 250 8 5 (-5) 0).
  { rewrite physics_ball, Hai.
    change (update (ball (approach x)))
      with (mkBall (x + -5) (250 + 0) 8 5 (-5) 0).
    rewrite wall_collision_inside by (simpl; unfold HEIGHT; lra).
    rewrite paddle_collision_none;
      [f_equal; lra | |]; apply circle_rect_collision_far; simpl; lra. }
  rewrite scoring_inside
    by (rewrite Hb; unfold ball_inside, WIDTH; simpl; lra).
  unfold physics. rewrite Hai. fold (physics (approach x)).
  unfold physics in Hb. rewrite Hai in Hb. simpl in Hb.
  unfold set_ball, approach; simpl. f_equal. exact Hb.
Qed.

Lemma approach_tick (x : R) :
  13 < x <= 400 ->
  tick level_oracle (approach x) no_input = approach (x - 5).
Proof.
  intros H. rewrite tick_running by reflexivity. apply (approach_physics x H).
Qed.

Lemma first_tick_approach :
  tick level_oracle (initial level_oracle) mouse_to_bottom = approach 395.
Proof.
  assert (Hin : apply_input level_oracle (initial level_oracle) mouse_to_bottom
                = approach 400).
  { unfold apply_input, mouse_to_bottom, initial, approach; simpl.
    unfold handle_keys, set_left_paddle; simpl.
    f_equal.
    - unfold move_to. rewrite py_int_IZR. reflexivity.
    - unfold reset, choice_dir, level_oracle, WIDTH, HEIGHT, BALL_RADIUS,
        BALL_SPEED; simpl.
      rewrite cos_0, sin_0. f_equal; lra. }
  unfold tick. rewrite Hin. simpl.
  rewrite approach_physics by lra. f_equal. lra.
Qed.

Lemma approach_reachable (k : nat) :
  (k <= 77)%nat -> reachable level_oracle (approach (395 - 5 * INR k)).
Proof.
  induction k as [| k IH]; intros Hk.
  - simpl. rewrite Rmult_0_r, Rminus_0_r, <- first_tick_approach.
    constructor; [constructor | reflexivity].
  - assert (Hle : INR k <= 76).
    { replace 76 with (INR 76) by (rewrite INR_IZR_INZ; reflexivity).
      apply le_INR. lia. }
    pose proof (pos_INR k) as Hge.
    replace (395 - 5 * INR (S k)) with (395 - 5 * INR k - 5)
      by (rewrite S_INR; lra).
    rewrite <- approach_tick by lra.
    constructor; [apply IH; lia | reflexivity].
Qed.

(** The state of the counterexample arises in play: a level serve to the
    left, the mouse moved to the bottom in the first iteration, and 77 more
    iterations without input. *)
Lemma left_exit_game_reachable : reachable level_oracle left_exit_game.
Proof.
  unfold left_exit_game.
  replace 10 with (395 - 5 * INR 77)
    by (rewrite INR_IZR_INZ; change (Z.of_nat 77) with 77%Z; lra).
  apply approach_reachable. lia.
Qed.

Lemma left_exit_physics :
  ball (physics (apply_input level_oracle left_exit_game no_input))
  = mkBall (10 + -5) (250 + 0) 8 5 (-5) 0.
Proof.
  change (apply_input level_oracle left_exit_game no_input) with left_exit_game.
  rewrite physics_ball.
  assert (Hai : update_ai left_exit_game = left_exit_game).
  { apply update_ai_still. unfold ai_diff; simpl. IZR_eval.
    replace (250 - (200 + 100 / 2)) with 0 by lra. rewrite Rabs_R0. lra. }
  rewrite Hai.
  change (update (ball left_exit_game)) with (mkBall (10 + -5) (250 + 0) 8 5 (-5) 0).
  rewrite wall_collision_inside by (simpl; unfold HEIGHT; lra).
  apply paddle_collision_none; apply circle_rect_collision_far; simpl; lra.
Qed.

Lemma flat_oracle_ok : oracle_ok flat_oracle.
Proof. intros n. apply draw_flat_ok. Qed.

Lemma level_oracle_ok : oracle_ok level_oracle.
Proof. intros n. unfold draw_ok; simpl. pose proof PI_RGT_0. lra. Qed.

(** C1, as stated, fails: on [left_exit_game], a state that arises in
    play, the iteration is not paused, the ball's left edge crosses the
    left boundary, the right score goes from 0 to 1, and the serve has
    [vx = 5 > 0], not [vx < 0]. *)
Lemma serve_after_left_exit_counterexample :
  reachable level_oracle left_exit_game /\
  oracle_ok level_oracle /\
  paused (apply_input level_oracle left_exit_game no_input) = false /\
  exits_left (ball (physics (apply_input level_oracle left_exit_game no_input))) /\
  right_score (tick level_oracle left_exit_game no_input) = 1%Z /\
  ball_vx (ball (tick level_oracle left_exit_game no_input)) = 5 /\
  ~ (ball_vx (ball (tick level_oracle left_exit_game no_input)) < 0).
Proof.
  assert (Hex : exits_left
            (ball (physics (apply_input level_oracle left_exit_game no_input)))).
  { rewrite left_exit_physics. unfold exits_left; simpl. lra. }
  assert (Ht : tick level_oracle left_exit_game no_input
               = scoring level_oracle
                   (physics (apply_input level_oracle left_exit_game no_input)))
    by (apply tick_running; reflexivity).
  assert (Hvx : ball_vx (ball (tick level_oracle left_exit_game no_input)) = 5).
  { rewrite Ht.
    destruct (scoring_cases level_oracle
                (physics (apply_input level_oracle left_exit_game no_input)))
      as [[_ H] | [(NE & _) | (NE & _)]]; try contradiction.
    rewrite H. unfold reset, level_oracle, BALL_SPEED; simpl.
    rewrite cos_0. lra. }
  split; [apply left_exit_game_reachable |].
  split; [apply level_oracle_ok |].
  split; [reflexivity |].
  split; [exact Hex |].
  split; [| split; [exact Hvx | rewrite Hvx; lra]].
  rewrite Ht.
  destruct (scoring_cases level_oracle
              (physics (apply_input level_oracle left_exit_game no_input)))
    as [[_ H] | [(NE & _) | (NE & _)]]; try contradiction.
  rewrite H. cbn [right_score].
  destruct (physics_frame (apply_input level_oracle left_exit_game no_input))
    as (_ & _ & _ & Hrs & _).
  rewrite Hrs. reflexivity.
Qed.

Lemma scoring_serves_toward_scorer_witness :
  oracle_ok level_oracle /\
  ball_r (ball left_exit_game) = IZR BALL_RADIUS /\
  paused (apply_input level_oracle left_exit_game no_input) = false /\
  (right_score (tick level_oracle left_exit_game no_input) = 0 + 1)%Z /\
  0 < ball_vx (ball (tick level_oracle left_exit_game no_input)).
Proof.
  assert (Hr : ball_r (ball left_exit_game) = IZR BALL_RADIUS) by reflexivity.
  assert (Hex : exits_left
            (ball (physics (apply_input level_oracle left_exit_game no_input)))).
  { rewrite left_exit_physics. unfold exits_left; simpl. lra. }
  destruct (scoring_serves_toward_scorer level_oracle left_exit_game no_input
              level_oracle_ok Hr eq_refl) as [H _].
  destruct (H Hex) as (H1 & _ & _ & H4 & _).
  split; [apply level_oracle_ok |].
  split; [exact Hr |]. split; [reflexivity |].
  split; [exact H1 | exact H4].
Defined.

Lemma high_ball_physics :
  ball (physics (apply_input flat_oracle high_ball_game no_input))
  = mkBall (400 + 5) (100 + 0) 8 5 5 0.
Proof.
  change (apply_input flat_oracle high_ball_game no_input) with high_ball_game.
  rewrite physics_ball.
  change (update (ball high_ball_game)) with (mkBall (400 + 5) (100 + 0) 8 5 5 0).
  rewrite wall_collision_inside by (simpl; unfold HEIGHT; lra).
  apply paddle_collision_none; apply circle_rect_collision_far;
    try (simpl; lra).
  - right. simpl. IZR_eval. lra.
  - left. unfold rect_left. rewrite update_ai_right_x. simpl. IZR_eval. lra.
Qed.

Lemma deterministic_without_reset_witness :
  draws_used (tick flat_oracle high_ball_game no_input)
  = draws_used high_ball_game /\
  tick steep_oracle high_ball_game no_input
  = tick flat_oracle high_ball_game no_input.
Proof.
  assert (Hd : draws_used (tick flat_oracle high_ball_game no_input)
               = draws_used high_ball_game).
  { rewrite tick_running by reflexivity.
    rewrite scoring_inside.
    - apply physics_frame.
    - rewrite high_ball_physics. unfold ball_inside, WIDTH; simpl. lra. }
  split; [exact Hd |].
  exact (proj2 (deterministic_without_reset flat_oracle steep_oracle
                  high_ball_game no_input
                  centre_hit_ball centre_hit_ball
                  centre_hit_paddle centre_hit_paddle true) Hd).
Defined.

(** * Further properties of the code *)

(** ** circle_rect_collision *)

(** Clamping a coordinate to an interval gives the point of the interval
    nearest to it. *)
Lemma clamp_in_range (l h c : R) : l <= h -> l <= Rmax l (Rmin c h) <= h.
Proof.
  intros H. split; [apply Rmax_l | apply Rmax_lub; [exact H | apply Rmin_r]].
Qed.

Lemma clamp_nearest (l h c p : R) :
  l <= h -> l <= p <= h ->
  (c - Rmax l (Rmin c h)) * (c - Rmax l (Rmin c h)) <= (c - p) * (c - p).
Proof.
  intros Hlh [Hlp Hph].
  destruct (Rle_dec c h) as [Hch | Hch].
  - rewrite (Rmin_left c h) by exact Hch.
    destruct (Rle_dec l c) as [Hlc | Hlc].
    + rewrite Rmax_right by exact Hlc.
      replace (c - c) with 0 by ring. rewrite Rmult_0_l.
      apply Rle_0_sqr.
    + rewrite Rmax_left by lra. nra.
  - rewrite (Rmin_right c h) by lra. rewrite Rmax_right by exact Hlh. nra.
Qed.

(** X1: [circle_rect_collision] answers whether the disc of centre [(cx, cy)]
    and radius [r] meets the rectangle: it returns [True] exactly when some
    point of the rectangle (edges included) is at distance at most [|r|]
    from the centre.  The rectangle has non-negative width and height. *)
Theorem circle_rect_collision_meets (cx cy r : R) (rc : Rect) :
  (rect_left rc <= rect_right rc)%Z ->
  (rect_top rc <= rect_bottom rc)%Z ->
  (circle_rect_collision cx cy r rc = true <->
   exists px py,
     IZR (rect_left rc) <= px <= IZR (rect_right rc) /\
     IZR (rect_top rc) <= py <= IZR (rect_bottom rc) /\
     (cx - px) * (cx - px) + (cy - py) * (cy - py) <= r * r).
Proof.
  intros Hx Hy. apply IZR_le in Hx. apply IZR_le in Hy.
  unfold circle_rect_collision. cbv zeta.
  set (qx := Rmax (IZR (rect_left rc)) (Rmin cx (IZR (rect_right rc)))).
  set (qy := Rmax (IZR (rect_top rc)) (Rmin cy (IZR (rect_bottom rc)))).
  destruct (Rle_dec _ _) as [Hle | Hgt]; split.
  - intros _. exists qx, qy.
    split; [apply clamp_in_range, Hx |].
    split; [apply clamp_in_range, Hy | exact Hle].
  - reflexivity.
  - discriminate.
  - intros (px & py & Hpx & Hpy & Hd). exfalso. apply Hgt.
    pose proof (clamp_nearest _ _ cx px Hx Hpx) as Nx.
    pose proof (clamp_nearest _ _ cy py Hy Hpy) as Ny.
    fold qx in Nx. fold qy in Ny. lra.
Qed.

Lemma circle_rect_collision_meets_witness :
  (rect_left (rect centre_hit_paddle) <= rect_right (rect centre_hit_paddle))%Z /\
  (rect_top (rect centre_hit_paddle) <= rect_bottom (rect centre_hit_paddle))%Z /\
  circle_rect_collision 40 250 8 (rect centre_hit_paddle) = true.
Proof.
  assert (H1 : (rect_left (rect centre_hit_paddle)
                <= rect_right (rect centre_hit_paddle))%Z)
    by (vm_compute; discriminate).
  assert (H2 : (rect_top (rect centre_hit_paddle)
                <= rect_bottom (rect centre_hit_paddle))%Z)
    by (vm_compute; discriminate).
  split; [exact H1 |]. split; [exact H2 |].
  apply (proj2 (circle_rect_collision_meets 40 250 8 (rect centre_hit_paddle)
                  H1 H2)).
  exists 32, 250. simpl. IZR_eval. lra.
Defined.

(** ** Where the ball hits the paddle *)

Lemma bounce_relative_sign (ball : Ball) (paddle : Paddle) :
  (0 < rect_height (rect paddle))%Z ->
  let c := IZR (rect_top (rect paddle)) + IZR (rect_height (rect paddle)) / 2 in
  (c < ball_y ball -> 0 < bounce_relative ball paddle) /\
  (ball_y ball < c -> bounce_relative ball paddle < 0) /\
  (ball_y ball = c -> bounce_relative ball paddle = 0) /\
  (c + IZR (rect_height (rect paddle)) / 2 <= ball_y ball ->
   bounce_relative ball paddle = 1) /\
  (ball_y ball <= c - IZR (rect_height (rect paddle)) / 2 ->
   bounce_relative ball paddle = -1).
Proof.
  intros Hh c. apply IZR_lt in Hh.
  unfold bounce_relative. fold c.
  set (hh := IZR (rect_height (rect paddle)) / 2).
  assert (Hhh : 0 < hh) by (unfold hh; lra).
  assert (Hq : forall d, d / hh * hh = d) by (intros d; field; lra).
  set (q := (ball_y ball - c) / hh).
  pose proof (Hq (ball_y ball - c)) as Hq'. fold q in Hq'.
  repeat split; intros H.
  - assert (0 < q) by nra.
    apply Rlt_le_trans with (Rmin 1 q); [apply Rmin_glb_lt; lra | apply Rmax_r].
  - assert (q < 0) by nra.
    apply Rmax_lub_lt; [lra |].
    apply Rle_lt_trans with q; [apply Rmin_r | assumption].
  - assert (q = 0) by nra.
    replace q with 0. rewrite Rmin_right, Rmax_right by lra. reflexivity.
  - assert (1 <= q) by nra.
    rewrite Rmin_left, Rmax_right by lra. reflexivity.
  - assert (q <= -1) by nra.
    rewrite Rmin_right by lra. rewrite Rmax_left by lra. reflexivity.
Qed.

(** X2: The side of the paddle's centre on which the ball is decides the
    vertical direction of the rebound: below the centre the ball leaves
    downward ([vy > 0]), above it upward ([vy < 0]), and a hit exactly at
    the centre leaves horizontally ([vy = 0]), whatever the incoming
    velocity was. *)
Theorem reflect_deflection (ball : Ball) (paddle : Paddle)
    (is_left_paddle : bool) :
  (0 < rect_height (rect paddle))%Z ->
  let c := IZR (rect_top (rect paddle)) + IZR (rect_height (rect paddle)) / 2 in
  let b := reflect_ball_from_paddle ball paddle is_left_paddle in
  (c < ball_y ball -> 0 < ball_vy b) /\
  (ball_y ball < c -> ball_vy b < 0) /\
  (ball_y ball = c -> ball_vy b = 0).
Proof.
  intros Hh c b.
  destruct (bounce_relative_sign ball paddle Hh) as (Hp & Hn & Hz & _).
  fold c in Hp, Hn, Hz.
  pose proof (bounce_relative_range ball paddle) as [Hlo Hhi].
  pose proof (rebound_speed_pos ball) as Hs.
  pose proof PI_RGT_0 as Hpi.
  subst b. rewrite reflect_unfold; simpl.
  set (rel := bounce_relative ball paddle) in *.
  repeat split; intros H.
  - specialize (Hp H).
    assert (0 < sin (rel * (PI / 4))) by (apply sin_gt_0; nra). nra.
  - specialize (Hn H).
    assert (0 < sin (- (rel * (PI / 4)))) by (apply sin_gt_0; nra).
    rewrite sin_neg in *. nra.
  - rewrite (Hz H), Rmult_0_l, sin_0. ring.
Qed.

Lemma reflect_deflection_witness :
  (0 < rect_height (rect centre_hit_paddle))%Z /\
  ball_vy (reflect_ball_from_paddle centre_hit_ball centre_hit_paddle true) = 0.
Proof.
  assert (H : (0 < rect_height (rect centre_hit_paddle))%Z) by reflexivity.
  split; [exact H |].
  apply (reflect_deflection centre_hit_ball centre_hit_paddle true H).
  simpl. IZR_eval. lra.
Defined.

(** X3: A ball whose centre is at or beyond an end of the paddle leaves at
    exactly 45 degrees: [vy = |vx|] at or below the bottom edge,
    [vy = -|vx|] at or above the top edge. *)
Theorem reflect_saturates (ball : Ball) (paddle : Paddle)
    (is_left_paddle : bool) :
  (0 < rect_height (rect paddle))%Z ->
  let b := reflect_ball_from_paddle ball paddle is_left_paddle in
  (IZR (rect_bottom (rect paddle)) <= ball_y ball ->
   ball_vy b = Rabs (ball_vx b)) /\
  (ball_y ball <= IZR (rect_top (rect paddle)) ->
   ball_vy b = - Rabs (ball_vx b)).
Proof.
  intros Hh b.
  destruct (bounce_relative_sign ball paddle Hh) as (_ & _ & _ & H1 & Hm1).
  pose proof (rebound_speed_pos ball) as Hs.
  assert (Hc : 0 < cos (PI / 4)).
  { apply cos_pos_quarter. pose proof PI_RGT_0. lra. }
  assert (Hsc : sin (PI / 4) = cos (PI / 4)) by (rewrite sin_PI4, cos_PI4; reflexivity).
  assert (Hx : forall a, 0 < cos a ->
            Rabs (if is_left_paddle
                  then Rabs (rebound_speed ball * cos a)
                  else - Rabs (rebound_speed ball * cos a))
            = rebound_speed ball * cos a).
  { intros a Ha. destruct is_left_paddle; rewrite ?Rabs_Ropp, Rabs_Rabsolu;
      apply Rabs_pos_eq; nra. }
  unfold rect_bottom, rect_top, rect_height in *.
  subst b. rewrite reflect_unfold; simpl. split; intros H.
  - rewrite H1 by (rewrite plus_IZR in H; lra).
    rewrite Rmult_1_l, (Hx _ Hc), Hsc. reflexivity.
  - rewrite Hm1 by lra.
    replace (-1 * (PI / 4)) with (- (PI / 4)) by ring.
    rewrite sin_neg, cos_neg, (Hx _ Hc), Hsc. ring.
Qed.

Lemma reflect_saturates_witness :
  (0 < rect_height (rect centre_hit_paddle))%Z /\
  ball_vy (reflect_ball_from_paddle (mkBall 40 320 8 5 (-5) 0)
             centre_hit_paddle true)
  = Rabs (ball_vx (reflect_ball_from_paddle (mkBall 40 320 8 5 (-5) 0)
                     centre_hit_paddle true)).
Proof.
  assert (H : (0 < rect_height (rect centre_hit_paddle))%Z) by reflexivity.
  split; [exact H |].
  apply (reflect_saturates (mkBall 40 320 8 5 (-5) 0) centre_hit_paddle true H).
  simpl. IZR_eval. lra.
Defined.

(** ** Paddle collisions within the loop *)

(** X4: After a rebound the ball has been put just outside the paddle and moves
    away from it, so once it has advanced by its new velocity it no longer
    touches that paddle, wherever the paddle has moved vertically in the
    meantime: the ball cannot stick to a paddle. *)
Theorem rebound_clears_paddle (b : Ball) (p p' : Paddle) :
  0 <= ball_r b ->
  rect_height (rect p) <> 0%Z ->
  (0 <= rect_w (rect p))%Z ->
  rect_x (rect p') = rect_x (rect p) ->
  rect_w (rect p') = rect_w (rect p) ->
  let from_left :=
    update (reflect_ball_from_paddle
              (set_ball_x b (IZR (rect_right (rect p)) + ball_r b)) p true) in
  let from_right :=
    update (reflect_ball_from_paddle
              (set_ball_x b (IZR (rect_left (rect p)) - ball_r b)) p false) in
  circle_rect_collision (ball_x from_left) (ball_y from_left)
    (ball_r from_left) (rect p') = false /\
  circle_rect_collision (ball_x from_right) (ball_y from_right)
    (ball_r from_right) (rect p') = false.
Proof.
  intros Hr _ Hw Hx Hw' from_left from_right.
  pose proof (rebound_speed_pos b) as Hs.
  pose proof (bounce_angle_range b p) as Ha.
  pose proof (cos_pos_quarter _ Ha) as Hc.
  assert (Hv : 0 < Rabs (rebound_speed b * cos (bounce_relative b p * (PI / 4)))).
  { rewrite Rabs_pos_eq; nra. }
  split; apply circle_rect_collision_far; try exact Hr.
  - right. right. unfold rect_left, rect_right. rewrite Hx, Hw'.
    split; [lia |].
    subst from_left. unfold update. rewrite reflect_unfold; simpl.
    unfold rect_right.
    change (bounce_relative (set_ball_x b _) p) with (bounce_relative b p).
    change (rebound_speed (set_ball_x b _)) with (rebound_speed b). lra.
  - left. unfold rect_left. rewrite Hx.
    subst from_right. unfold update. rewrite reflect_unfold; simpl.
    unfold rect_left.
    change (bounce_relative (set_ball_x b _) p) with (bounce_relative b p).
    change (rebound_speed (set_ball_x b _)) with (rebound_speed b). lra.
Qed.

Lemma rebound_clears_paddle_witness :
  0 <= ball_r centre_hit_ball /\
  circle_rect_collision
    (ball_x (update (reflect_ball_from_paddle
                       (set_ball_x centre_hit_ball
                          (IZR (rect_right (rect centre_hit_paddle))
                           + ball_r centre_hit_ball))
                       centre_hit_paddle true)))
    (ball_y (update (reflect_ball_from_paddle
                       (set_ball_x centre_hit_ball
                          (IZR (rect_right (rect centre_hit_paddle))
                           + ball_r centre_hit_ball))
                       centre_hit_paddle true)))
    (ball_r (update (reflect_ball_from_paddle
                       (set_ball_x centre_hit_ball
                          (IZR (rect_right (rect centre_hit_paddle))
                           + ball_r centre_hit_ball))
                       centre_hit_paddle true)))
    (rect (move_by centre_hit_paddle 7)) = false.
Proof.
  assert (Hr : 0 <= ball_r centre_hit_ball) by (simpl; lra).
  split; [exact Hr |].
  refine (proj1 (rebound_clears_paddle centre_hit_ball centre_hit_paddle
                   (move_by centre_hit_paddle 7) Hr _ _ _ _)).
  - discriminate.
  - vm_compute; discriminate.
  - apply move_by_size.
  - apply move_by_size.
Defined.

(** Between the paddles as [main] places them, one iteration reflects the
    ball from at most one paddle. *)
Lemma paddle_collision_once (lp rp : Paddle) (b : Ball) :
  rect_x (rect lp) = PADDLE_OFFSET -> rect_w (rect lp) = PADDLE_W ->
  rect_x (rect rp) = (WIDTH - PADDLE_W - PADDLE_OFFSET)%Z ->
  ball_r b = IZR BALL_RADIUS ->
  paddle_collision lp rp b = b \/
  paddle_collision lp rp b
  = reflect_ball_from_paddle
      (set_ball_x b (IZR (rect_right (rect lp)) + ball_r b)) lp true \/
  paddle_collision lp rp b
  = reflect_ball_from_paddle
      (set_ball_x b (IZR (rect_left (rect rp)) - ball_r b)) rp false.
Proof.
  intros Lx Lw Rx Hr. unfold paddle_collision.
  destruct (circle_rect_collision (ball_x b) (ball_y b) (ball_r b) (rect lp)).
  - right. left.
    rewrite circle_rect_collision_far; [reflexivity | |].
    + rewrite reflect_unfold; simpl. rewrite Hr. unfold BALL_RADIUS. lra.
    + left. rewrite reflect_unfold; simpl.
      unfold rect_left, rect_right. rewrite Lx, Lw, Rx, Hr.
      unfold PADDLE_OFFSET, PADDLE_W, WIDTH, BALL_RADIUS. simpl. lra.
  - destruct (circle_rect_collision (ball_x b) (ball_y b) (ball_r b) (rect rp));
      auto.
Qed.

(** X5: From a state satisfying the loop invariant, the physics of one
    iteration (before the scoring test) never lowers the ball's speed and
    raises it by at most [BALL_SPEED_INC]: either it is unchanged, or it is
    [min(BALL_MAX_SPEED, speed + BALL_SPEED_INC)] after the single rebound
    of the iteration. *)
Theorem physics_speed_step (g : Game) :
  game_inv g ->
  let s := ball_speed (ball g) in
  let s' := ball_speed (ball (physics g)) in
  (s' = s \/ s' = Rmin (IZR BALL_MAX_SPEED) (s + BALL_SPEED_INC)) /\
  s <= s' <= s + BALL_SPEED_INC /\
  s' <= IZR BALL_MAX_SPEED.
Proof.
  intros (Ls & _ & Rs & _ & Bc & _ & [Pl Pr] & _) s s'.
  destruct Ls as [Lw _].
  set (b := wall_collision (update (ball g))).
  assert (Hb : ball_core b)
    by (apply wall_collision_core, update_core, Bc).
  assert (Hsb : ball_speed b = s).
  { unfold b. destruct (wall_collision_speed (update (ball g))) as (_ & H & _).
    rewrite H. reflexivity. }
  destruct Hb as (Hr & Hh & Hlo & Hhi).
  assert (Hreb : forall p l v,
            ball_speed (reflect_ball_from_paddle (set_ball_x b v) p l)
            = Rmin (IZR BALL_MAX_SPEED) (s + BALL_SPEED_INC)).
  { intros p l v. rewrite reflect_unfold; simpl. unfold rebound_speed; simpl.
    rewrite <- Hh, Hsb. reflexivity. }
  assert (Hcase : s' = s \/ s' = Rmin (IZR BALL_MAX_SPEED) (s + BALL_SPEED_INC)).
  { subst s'. rewrite physics_ball. fold b.
    destruct (paddle_collision_once (left_paddle g) (right_paddle (update_ai g))
                b Pl Lw)
      as [H | [H | H]];
      try (rewrite update_ai_right_x; exact Pr); try exact Hr;
      rewrite H; [left; exact Hsb | right; apply Hreb | right; apply Hreb]. }
  rewrite Hsb in Hlo, Hhi. unfold BALL_SPEED_INC, BALL_MAX_SPEED in *.
  split; [exact Hcase |].
  destruct Hcase as [E | E]; rewrite E.
  - lra.
  - split; [split; [apply Rmin_glb; lra | apply Rmin_r] | apply Rmin_l].
Qed.

Lemma physics_speed_step_witness :
  game_inv (initial flat_oracle) /\
  ball_speed (ball (initial flat_oracle))
  <= ball_speed (ball (physics (initial flat_oracle))).
Proof.
  split; [apply initial_inv |].
  apply (physics_speed_step (initial flat_oracle) (initial_inv flat_oracle)).
Defined.

(** ** What holds after any run of the loop *)

Lemma paddle_collision_y (lp rp : Paddle) (b : Ball) :
  ball_y (paddle_collision lp rp b) = ball_y b.
Proof.
  unfold paddle_collision.
  destruct (circle_rect_collision (ball_x b) (ball_y b) (ball_r b) (rect lp));
    match goal with |- context [if ?c then _ else _] => destruct c end;
    reflexivity.
Qed.

(** The wall step leaves the ball inside the field vertically, wherever
    the advance had taken it. *)
Lemma wall_collision_vertical (b : Ball) :
  ball_r b = IZR BALL_RADIUS -> ball_vertical (wall_collision b).
Proof.
  intros Hr. unfold ball_vertical, wall_collision.
  destruct (Rle_dec (ball_y b - ball_r b) 0);
    [| destruct (Rge_dec (ball_y b + ball_r b) (IZR HEIGHT))];
    simpl; rewrite Hr; unfold BALL_RADIUS, HEIGHT in *; lra.
Qed.

Lemma reset_vertical (self : Ball) (serving_to : option Side) (d : Draw) :
  ball_vertical (reset self serving_to d).
Proof.
  unfold ball_vertical, reset, HEIGHT, BALL_RADIUS; simpl. lra.
Qed.

Lemma handle_events_vertical (o : Oracle) (evs : list Event) (g : Game) :
  ball_vertical (ball g) -> ball_vertical (ball (handle_events o g evs)).
Proof.
  unfold handle_events. revert g.
  induction evs as [| e rest IH]; intros g H; simpl; [exact H |].
  apply IH. destruct e as [| [| | |] | |]; simpl; try exact H.
  apply reset_vertical.
Qed.

Lemma tick_vertical (o : Oracle) (g : Game) (i : Input) :
  ball_r (ball g) = IZR BALL_RADIUS ->
  ball_vertical (ball g) -> ball_vertical (ball (tick o g i)).
Proof.
  intros Hr Hv.
  assert (Hv1 : ball_vertical (ball (apply_input o g i)))
    by (rewrite apply_input_ball; apply handle_events_vertical, Hv).
  pose proof (apply_input_ball_r o g i Hr) as Hr1.
  unfold tick. destruct (paused (apply_input o g i)); [exact Hv1 |].
  set (g1 := apply_input o g i) in *.
  assert (Hm : ball_vertical (ball (physics g1))).
  { unfold ball_vertical. rewrite physics_ball_r, physics_ball, paddle_collision_y.
    pose proof (wall_collision_vertical (update (ball g1)) Hr1) as Hw.
    unfold ball_vertical in Hw.
    destruct (wall_collision_x (update (ball g1))) as [_ Hrw].
    rewrite Hrw in Hw. exact Hw. }
  remember (physics g1) as m eqn:Em.
  destruct (scoring_cases o m) as [[_ H] | [(_ & _ & H) | (_ & _ & H)]];
    rewrite H; simpl; auto using reset_vertical.
Qed.

Lemma reachable_vertical (o : Oracle) (g : Game) :
  reachable o g -> ball_vertical (ball g).
Proof.
  induction 1 as [| g i Hreach IH _].
  - apply reset_vertical.
  - apply tick_vertical; [| exact IH].
    apply reachable_inv in Hreach.
    destruct Hreach as (_ & _ & _ & _ & (Hr & _) & _). exact Hr.
Qed.

(** X6: After any run of the loop from the start, whatever the inputs and the
    random draws, the ball (a disc of radius [BALL_RADIUS]) lies entirely
    within the field: vertically between the walls, horizontally strictly
    between the two boundaries. *)
Theorem ball_stays_in_field (o : Oracle) (inputs : list Input) :
  let b := ball (main_loop o (initial o) inputs) in
  ball_r b = IZR BALL_RADIUS /\
  0 <= ball_y b - ball_r b /\ ball_y b + ball_r b <= IZR HEIGHT /\
  0 < ball_x b - ball_r b /\ ball_x b + ball_r b < IZR WIDTH.
Proof.
  intros b.
  assert (Hreach : reachable o (main_loop o (initial o) inputs))
    by (apply main_loop_reachable; constructor).
  pose proof (reachable_vertical o _ Hreach) as [V1 V2].
  destruct (reachable_inv o _ Hreach)
    as (_ & _ & _ & _ & (Hr & _) & [I1 I2] & _).
  fold b in V1, V2, Hr, I1, I2. repeat split; try assumption; lra.
Qed.

(** X7: After any run of the loop from the start, both paddles have kept their
    size and abscissa and lie within the field vertically, the ball's
    speed attribute is the length of its velocity and lies between
    [BALL_SPEED] and [BALL_MAX_SPEED], and both scores are non-negative. *)
Theorem run_invariant (o : Oracle) (inputs : list Input) :
  let g := main_loop o (initial o) inputs in
  paddle_sized (left_paddle g) /\ paddle_in_field (left_paddle g) /\
  paddle_sized (right_paddle g) /\ paddle_in_field (right_paddle g) /\
  paddles_placed g /\
  ball_speed (ball g) = hypot (ball_vx (ball g)) (ball_vy (ball g)) /\
  IZR BALL_SPEED <= ball_speed (ball g) <= IZR BALL_MAX_SPEED /\
  (0 <= left_score g)%Z /\ (0 <= right_score g)%Z.
Proof.
  intros g.
  assert (Hreach : reachable o g)
    by (apply main_loop_reachable; constructor).
  destruct (reachable_inv o g Hreach)
    as (Ls & Li & Rs & Ri & (_ & Hh & Hb) & _ & Pp & [S1 S2]).
  auto 12.
Qed.

(** X8: A wall bounce sends the ball back into the field: for a ball that was
    within the field vertically before it advanced, after the wall step the
    vertical velocity points downward when the top wall was hit and upward
    when the bottom wall was hit, and the ball is within the field
    again. *)
Theorem wall_bounce_inward (b : Ball) :
  ball_r b = IZR BALL_RADIUS ->
  ball_vertical b ->
  let moved := update b in
  let b' := wall_collision moved in
  (ball_y moved - ball_r moved <= 0 -> ball_y b' = ball_r b /\ 0 <= ball_vy b') /\
  (ball_y moved + ball_r moved >= IZR HEIGHT ->
   ball_y b' = IZR HEIGHT - ball_r b /\ ball_vy b' <= 0) /\
  (0 < ball_y moved - ball_r moved ->
   ball_y moved + ball_r moved < IZR HEIGHT -> b' = moved) /\
  ball_vertical b'.
Proof.
  intros Hr [V1 V2] moved b'.
  assert (Hv : ball_vertical b')
    by (apply wall_collision_vertical; exact Hr).
  subst b' moved. unfold wall_collision, update in *; simpl in *.
  rewrite Hr in *. unfold BALL_RADIUS, HEIGHT in *.
  destruct (Rle_dec (ball_y b + ball_vy b - 8) 0);
    [| destruct (Rge_dec (ball_y b + ball_vy b + 8) 500)]; simpl;
    (split; [| split; [| split; [| exact Hv]]]); intros;
    try reflexivity; try (split; lra); exfalso; lra.
Qed.

Lemma wall_bounce_inward_witness :
  ball_r (mkBall 400 10 8 5 3 (-4)) = IZR BALL_RADIUS /\
  ball_vertical (mkBall 400 10 8 5 3 (-4)) /\
  0 <= ball_vy (wall_collision (update (mkBall 400 10 8 5 3 (-4)))).
Proof.
  assert (Hr : ball_r (mkBall 400 10 8 5 3 (-4)) = IZR BALL_RADIUS)
    by reflexivity.
  assert (Hv : ball_vertical (mkBall 400 10 8 5 3 (-4)))
    by (unfold ball_vertical, HEIGHT; simpl; lra).
  split; [exact Hr |]. split; [exact Hv |].
  destruct (wall_bounce_inward _ Hr Hv) as (H & _).
  apply H. simpl. lra.
Defined.

(** ** Quitting, resetting and pausing *)

Lemma handle_events_running (o : Oracle) (evs : list Event) (g : Game) :
  running (handle_events o g evs)
  = running g && forallb (fun e => negb (is_quit e)) evs.
Proof.
  unfold handle_events. revert g.
  induction evs as [| e rest IH]; intros g; simpl.
  - rewrite andb_true_r. reflexivity.
  - rewrite IH. destruct e as [| [| | |] | |]; simpl;
      rewrite ?andb_false_r, ?andb_true_r; reflexivity.
Qed.

Lemma tick_running_flag (o : Oracle) (g : Game) (i : Input) :
  running (tick o g i)
  = running g && forallb (fun e => negb (is_quit e)) (events i).
Proof.
  rewrite <- (handle_events_running o).
  assert (Ha : running (apply_input o g i)
               = running (handle_events o g (events i))).
  { unfold apply_input.
    destruct (handle_keys_frame (handle_events o g (events i)) i)
      as (_ & _ & _ & _ & K & _). exact K. }
  unfold tick. destruct (paused (apply_input o g i)); [exact Ha |].
  destruct (scoring_frame o (physics (apply_input o g i))) as (_ & _ & K & _).
  destruct (physics_frame (apply_input o g i)) as (_ & _ & _ & _ & K' & _).
  rewrite K, K'. exact Ha.
Qed.

(** X9: Closing the window or pressing Esc ends the loop: an iteration leaves
    [running] set exactly when it was set and no such event arrived (it is
    never set again); the iteration that receives the event is completed,
    and no later input is processed. *)
Theorem quit_ends_loop (o : Oracle) (g : Game) (i : Input)
    (rest : list Input) :
  running (tick o g i)
  = running g && forallb (fun e => negb (is_quit e)) (events i) /\
  (forallb (fun e => negb (is_quit e)) (events i) = false ->
   running g = true ->
   running (tick o g i) = false /\
   main_loop o g (i :: rest) = tick o g i) /\
  (running g = false -> main_loop o g (i :: rest) = g).
Proof.
  pose proof (tick_running_flag o g i) as Hrun.
  split; [exact Hrun |]. split.
  - intros Hq Hr. rewrite Hq, andb_false_r in Hrun.
    split; [exact Hrun |].
    simpl. rewrite Hr. destruct rest; simpl; [reflexivity |].
    rewrite Hrun. reflexivity.
  - intros Hr. simpl. rewrite Hr. reflexivity.
Qed.

Lemma quit_ends_loop_witness :
  running (initial flat_oracle) = true /\
  main_loop flat_oracle (initial flat_oracle)
    [mkInput [KEYDOWN K_ESCAPE] false false; no_input; no_input]
  = tick flat_oracle (initial flat_oracle)
      (mkInput [KEYDOWN K_ESCAPE] false false).
Proof.
  split; [reflexivity |].
  apply (proj1 (proj2 (quit_ends_loop flat_oracle (initial flat_oracle)
                         (mkInput [KEYDOWN K_ESCAPE] false false)
                         [no_input; no_input])));
    reflexivity.
Defined.

(** After a serve, one step of physics only advances the ball (and applies
    the wall step): no paddle is in reach. *)
Lemma serve_flight_ball (g : Game) (d : Draw) :
  paddle_sized (left_paddle g) -> paddles_placed g ->
  ball g = reset (ball g) None d ->
  ball (physics g) = wall_collision (update (ball g)).
Proof.
  intros [Lw _] [Pl Pr] Hb.
  assert (Hx : ball_x (ball g) = 400)
    by (rewrite Hb; unfold reset, WIDTH; simpl; lra).
  assert (Hr : ball_r (ball g) = 8) by (rewrite Hb; reflexivity).
  assert (Hv : -5 <= ball_vx (ball g) <= 5).
  { rewrite Hb. unfold reset, choice_dir, BALL_SPEED; simpl.
    pose proof (COS_bound (draw_angle d)). destruct (draw_second d); lra. }
  rewrite physics_ball.
  set (b := wall_collision (update (ball g))).
  destruct (wall_collision_x (update (ball g))) as [Bx Br].
  fold b in Bx, Br. simpl in Bx, Br. rewrite Hr in Br.
  apply paddle_collision_none;
    apply circle_rect_collision_far; rewrite ?Br, ?Bx; try lra.
  - right. right. unfold rect_left, rect_right. rewrite Pl, Lw.
    unfold PADDLE_OFFSET, PADDLE_W. split; [lia |]. simpl. lra.
  - left. unfold rect_left. rewrite update_ai_right_x, Pr.
    unfold WIDTH, PADDLE_W, PADDLE_OFFSET. simpl. lra.
Qed.

Lemma handle_events_paused_last_reset (o : Oracle) (evs : list Event) (g : Game) :
  paused (handle_events o g (evs ++ [KEYDOWN K_r])) = false.
Proof.
  unfold handle_events. rewrite fold_left_app. reflexivity.
Qed.

(** X10: The R key restarts the match: when it is among the events of an
    iteration (from a state satisfying the loop invariant), both scores are
    zero when the iteration ends, the ball has the base speed and is within
    five pixels of the centre line, at least one draw was taken, and
    neither paddle was moved by the reset (the right one is where the AI
    puts it, the left one where the input puts it).  When R is the last
    event the iteration is not paused. *)
Theorem reset_key_restarts (o : Oracle) (g : Game) (i : Input) :
  game_inv g ->
  forallb (fun e => negb (is_reset e)) (events i) = false ->
  let g' := tick o g i in
  left_score g' = 0%Z /\ right_score g' = 0%Z /\
  ball_speed (ball g') = IZR BALL_SPEED /\
  Rabs (ball_x (ball g') - IZR WIDTH / 2) <= 5 /\
  (draws_used g < draws_used g')%nat /\
  left_paddle g' = left_after_input (left_paddle g) i /\
  (forall evs, events i = evs ++ [KEYDOWN K_r] -> paused g' = false).
Proof.
  intros Hinv Hnr g'.
  pose proof (apply_input_inv o g i Hinv) as Hinv1.
  destruct Hinv1 as (Ls1 & _ & _ & _ & _ & _ & Pp1 & _).
  destruct (handle_events_reset o (events i) g Hnr) as (d & Hb & Z1 & Z2).
  destruct (apply_input_scores o g i) as [E1 E2].
  rewrite <- E1 in Z1. rewrite <- E2 in Z2.
  assert (Hdraw : (draws_used g < draws_used (apply_input o g i))%nat).
  { rewrite apply_input_draws.
    clear - Hnr. revert g.
    induction (events i) as [| e rest IH]; intros g; [discriminate |].
    change (handle_events o g (e :: rest))
      with (handle_events o (handle_event o g e) rest).
    pose proof (handle_events_draws_mono o rest (handle_event o g e)) as Hm.
    destruct (handle_event_draws o g e) as [[_ Hd] | [He [Hd _]]]; [lia |].
    simpl in Hnr. rewrite He in Hnr. simpl in Hnr.
    specialize (IH Hnr (handle_event o g e)). lia. }
  pose proof (tick_draws_mono o g i) as Hmono.
  pose proof (apply_input_left_paddle o g i) as Hlp.
  assert (Hlast : forall evs, events i = evs ++ [KEYDOWN K_r] ->
                  paused (apply_input o g i) = false).
  { intros evs He. unfold apply_input.
    destruct (handle_keys_frame (handle_events o g (events i)) i)
      as (_ & _ & _ & _ & _ & K & _).
    rewrite K, He. apply handle_events_paused_last_reset. }
  set (g1 := apply_input o g i) in *.
  assert (Hb1 : ball g1 = reset (ball g1) None d).
  { unfold g1. rewrite apply_input_ball, Hb. reflexivity. }
  assert (Hx1 : ball_x (ball g1) = 400)
    by (rewrite Hb1; unfold reset, WIDTH; simpl; lra).
  assert (Hs1 : ball_speed (ball g1) = IZR BALL_SPEED)
    by (rewrite Hb1; reflexivity).
  assert (Hv1 : -5 <= ball_vx (ball g1) <= 5).
  { rewrite Hb1. unfold reset, choice_dir, BALL_SPEED; simpl.
    pose proof (COS_bound (draw_angle d)). destruct (draw_second d); lra. }
  subst g'. unfold tick in *. fold g1 in Hmono |- *.
  destruct (paused g1) eqn:Hp.
  - rewrite Hx1. unfold WIDTH.
    replace (400 - 800 / 2) with 0 by lra. rewrite Rabs_R0.
    repeat split; auto; try lra.
    intros evs He. discriminate (Hlast evs He).
  - pose proof (serve_flight_inside g1 d Ls1 Pp1 Hb1) as Hin.
    pose proof (serve_flight_ball g1 d Ls1 Pp1 Hb1) as Hfl.
    destruct (physics_frame g1) as (Hlf & _ & Hl & Hrs & _ & Hpp & Hd).
    rewrite (scoring_inside o _ Hin) in *.
    destruct (wall_collision_speed (update (ball g1))) as (_ & Hsp & _).
    destruct (wall_collision_x (update (ball g1))) as [Hwx _].
    rewrite Hl, Hrs, Hfl, Hsp, Hwx, Hpp, Hlf, Hd. simpl.
    rewrite Hx1, Hs1. unfold WIDTH.
    repeat split; auto; try lia.
    apply Rabs_le. lra.
Qed.

Lemma reset_key_restarts_witness :
  game_inv left_exit_game /\
  left_score (tick level_oracle left_exit_game
                (mkInput [KEYDOWN K_SPACE; KEYDOWN K_r] false false)) = 0%Z /\
  paused (tick level_oracle left_exit_game
            (mkInput [KEYDOWN K_SPACE; KEYDOWN K_r] false false)) = false.
Proof.
  assert (Hinv : game_inv left_exit_game)
    by (apply (reachable_inv level_oracle), left_exit_game_reachable).
  split; [exact Hinv |].
  destruct (reset_key_restarts level_oracle left_exit_game
              (mkInput [KEYDOWN K_SPACE; KEYDOWN K_r] false false)
              Hinv eq_refl) as (H1 & _ & _ & _ & _ & _ & H7).
  split; [exact H1 |].
  apply (H7 [KEYDOWN K_SPACE]). reflexivity.
Defined.

(** X11: Without the reset key, the pause flag after the events of an iteration
    is the flag before them flipped once per press of the space bar: an
    even number of presses in one iteration leaves it as it was. *)
Theorem pause_toggle_parity (o : Oracle) (g : Game) (i : Input) :
  no_reset i ->
  paused (apply_input o g i)
  = xorb (paused g) (Nat.odd (length (filter is_toggle (events i)))).
Proof.
  unfold no_reset, apply_input. intros Hnr.
  destruct (handle_keys_frame (handle_events o g (events i)) i)
    as (_ & _ & _ & _ & _ & K & _).
  rewrite K. clear K. unfold handle_events. revert g Hnr.
  induction (events i) as [| e rest IH]; intros g Hnr; simpl in *.
  - rewrite xorb_false_r. reflexivity.
  - apply andb_prop in Hnr. destruct Hnr as [He Hrest].
    rewrite (IH _ Hrest).
    destruct e as [| [| | |] | |]; simpl in *; try discriminate;
      try reflexivity.
    rewrite Nat.odd_succ, <- Nat.negb_odd.
    destruct (paused g), (Nat.odd (length (filter is_toggle rest)));
      reflexivity.
Qed.

Lemma pause_toggle_parity_witness :
  no_reset (mkInput [KEYDOWN K_SPACE; MOUSEMOTION 3 4; KEYDOWN K_SPACE]
              false false) /\
  paused (apply_input flat_oracle (initial flat_oracle)
            (mkInput [KEYDOWN K_SPACE; MOUSEMOTION 3 4; KEYDOWN K_SPACE]
               false false)) = false.
Proof.
  split; [reflexivity |].
  rewrite (pause_toggle_parity flat_oracle (initial flat_oracle)
             (mkInput [KEYDOWN K_SPACE; MOUSEMOTION 3 4; KEYDOWN K_SPACE]
                false false) eq_refl).
  reflexivity.
Defined.

(** ** Paddle motion *)

Lemma same_shape_refl (p : Paddle) : same_shape p p.
Proof. unfold same_shape. auto. Qed.

Lemma same_shape_trans (p q r : Paddle) :
  same_shape p q -> same_shape q r -> same_shape p r.
Proof.
  unfold same_shape. intros (A1 & A2 & A3 & A4) (B1 & B2 & B3 & B4).
  rewrite B1, B2, B3, B4. auto.
Qed.

Lemma move_by_shape (p : Paddle) (dy : R) : same_shape p (move_by p dy).
Proof. apply move_by_size. Qed.

Lemma move_to_shape (p : Paddle) (y : R) : same_shape p (move_to p y).
Proof. apply move_to_size. Qed.

Lemma left_after_input_shape (p : Paddle) (i : Input) :
  same_shape p (left_after_input p i).
Proof.
  unfold left_after_input.
  assert (H : same_shape p (fold_left left_after_event (events i) p)).
  { revert p. induction (events i) as [| e rest IH]; intros p; simpl;
      [apply same_shape_refl |].
    apply same_shape_trans with (left_after_event p e); [| apply IH].
    destruct e as [| k | mx my |]; simpl;
      [apply same_shape_refl | apply same_shape_refl | apply move_to_shape
      | apply same_shape_refl]. }
  apply same_shape_trans with (fold_left left_after_event (events i) p);
    [exact H |].
  unfold left_after_keys.
  set (q := fold_left left_after_event (events i) p).
  destruct (key_up i), (key_down i);
    eauto using same_shape_refl, same_shape_trans, move_by_shape.
Qed.

(** X12: An iteration only ever moves the paddles vertically: whatever the
    state, the input and the draws, each paddle keeps its abscissa, its
    width, its height and its speed attribute. *)
Theorem paddles_move_vertically (o : Oracle) (g : Game) (i : Input) :
  same_shape (left_paddle g) (left_paddle (tick o g i)) /\
  same_shape (right_paddle g) (right_paddle (tick o g i)).
Proof.
  assert (HL : same_shape (left_paddle g) (left_paddle (apply_input o g i)))
    by (rewrite apply_input_left_paddle; apply left_after_input_shape).
  assert (HR : same_shape (right_paddle g) (right_paddle (apply_input o g i)))
    by (rewrite apply_input_right_paddle; apply same_shape_refl).
  unfold tick. destruct (paused (apply_input o g i)); [auto |].
  set (g1 := apply_input o g i) in *.
  destruct (scoring_frame o (physics g1)) as (K1 & K2 & _).
  destruct (physics_frame g1) as (P1 & P2 & _).
  rewrite K1, K2, P1, P2. split; [exact HL |].
  apply same_shape_trans with (right_paddle g1); [exact HR |].
  unfold update_ai. destruct (Rgt_dec (Rabs (ai_diff g1)) 4); simpl;
    [apply move_by_shape | apply same_shape_refl].
Qed.

(** [move_by] with a whole number of pixels, on a paddle inside the field,
    is a clamped addition. *)
Lemma move_by_int_top (p : Paddle) (dz : Z) :
  paddle_in_field p ->
  rect_top (rect (move_by p (IZR dz)))
  = Z.min (Z.max (rect_top (rect p) + dz) 0) (HEIGHT - rect_h (rect p)).
Proof.
  unfold paddle_in_field, rect_top, rect_bottom. intros [H0 H1].
  rewrite move_by_top. cbv zeta. rewrite py_int_plus_IZR.
  destruct (Z.ltb_spec (rect_y (rect p) + dz) 0);
    match goal with |- context [(?a >? ?b)%Z] =>
      pose proof (Zgt_cases a b); destruct (a >? b)%Z end; lia.
Qed.

(** X13: The arrow keys: with Up held alone the left paddle rises by its speed
    and stops at the top of the field, with Down held alone it descends by
    its speed and stops at the bottom, and with both held the two moves
    cancel unless the paddle was within one step of the top, in which case
    it ends one step below the top. *)
Theorem arrow_keys_move (g : Game) (i : Input) :
  paddle_in_field (left_paddle g) ->
  (0 <= speed (left_paddle g))%Z ->
  (speed (left_paddle g) + rect_h (rect (left_paddle g)) <= HEIGHT)%Z ->
  let top := rect_top (rect (left_paddle g)) in
  let s := speed (left_paddle g) in
  let h := rect_h (rect (left_paddle g)) in
  let top' := rect_top (rect (left_paddle (handle_keys g i))) in
  (key_up i = false -> key_down i = false -> top' = top) /\
  (key_up i = true -> key_down i = false -> top' = Z.max (top - s) 0) /\
  (key_up i = false -> key_down i = true -> top' = Z.min (top + s) (HEIGHT - h)) /\
  (key_up i = true -> key_down i = true -> top' = Z.max top s).
Proof.
  intros Hin Hs Hsh top s h top'.
  set (p := left_paddle g) in *.
  assert (Hk : left_paddle (handle_keys g i) = left_after_keys p i).
  { unfold handle_keys, left_after_keys, p.
    destruct (key_up i), (key_down i); reflexivity. }
  assert (Hin' : paddle_in_field (move_by p (IZR (- s))))
    by (apply move_by_in_field, Hin).
  destruct (move_by_size p (IZR (- s))) as (_ & _ & Hh' & Hs').
  pose proof (move_by_int_top p (- s) Hin) as Hup.
  pose proof (move_by_int_top p s Hin) as Hdown.
  pose proof (move_by_int_top _ s Hin') as Hboth.
  rewrite Hh', Hup in Hboth.
  fold top in Hup, Hdown, Hboth. fold h in Hup, Hdown, Hboth.
  assert (Htop : (0 <= top /\ top + h <= HEIGHT)%Z) by exact Hin.
  subst top'. rewrite Hk. unfold left_after_keys.
  repeat split; intros Hu Hd; rewrite Hu, Hd; cbv zeta;
    try change (speed p) with s; rewrite ?Hs'; try change (speed p) with s.
  - reflexivity.
  - rewrite Hup. lia.
  - rewrite Hdown. lia.
  - rewrite Hboth. lia.
Qed.

Lemma arrow_keys_move_witness :
  paddle_in_field (Paddle_init 20 3) /\
  rect_top (rect (left_paddle
     (handle_keys (set_left_paddle (initial flat_oracle) (Paddle_init 20 3))
                  (mkInput [] true true)))) = 7%Z.
Proof.
  assert (Hin : paddle_in_field (Paddle_init 20 3))
    by (unfold paddle_in_field; vm_compute; split; discriminate).
  split; [exact Hin |].
  destruct (arrow_keys_move
              (set_left_paddle (initial flat_oracle) (Paddle_init 20 3))
              (mkInput [] true true) Hin)
    as (_ & _ & _ & H); try (vm_compute; discriminate).
  rewrite (H eq_refl eq_refl). reflexivity.
Defined.

(** [k] successive integer steps over unbounded integers: the paddle
    moves linearly until it stops at the edge of the field. *)
Lemma move_by_times_top (p : Paddle) (dz : Z) (k : nat) :
  paddle_in_field p ->
  let top := rect_top (rect p) in
  let top' := rect_top (rect (move_by_times p dz k)) in
  ((0 <= dz)%Z ->
   top' = Z.min (top + dz * Z.of_nat k) (HEIGHT - rect_h (rect p))) /\
  ((dz <= 0)%Z -> top' = Z.max (top + dz * Z.of_nat k) 0).
Proof.
  intros Hin. cbv zeta. revert p Hin.
  induction k as [| k IH]; intros p Hin.
  - unfold paddle_in_field, rect_top, rect_bottom in Hin.
    cbn [move_by_times]. unfold rect_top. split; intros; lia.
  - cbn [move_by_times].
    pose proof (move_by_in_field p (IZR dz) Hin) as Hin'.
    destruct (IH _ Hin') as [IHd IHu].
    destruct (move_by_size p (IZR dz)) as (_ & _ & Hh & _).
    rewrite Hh, (move_by_int_top p dz Hin) in IHd.
    rewrite (move_by_int_top p dz Hin) in IHu.
    unfold paddle_in_field, rect_top, rect_bottom in *.
    split; intros Hdz.
    + rewrite (IHd Hdz). nia.
    + rewrite (IHu Hdz). nia.
Qed.

Lemma move_by_checked_times_agrees (p : Paddle) (dz : Z) (k : nat) :
  paddle_sized p -> paddle_in_field p -> step_bounded (IZR dz) ->
  move_by_checked_times p dz k = Some (move_by_times p dz k).
Proof.
  intros Hs Hin Hb. revert p Hs Hin.
  induction k as [| k IH]; intros p Hs Hin; [reflexivity |].
  cbn [move_by_checked_times move_by_times].
  rewrite (move_by_checked_agrees p (IZR dz) Hs Hin Hb).
  destruct (apply_call_keeps p (CallMoveBy (IZR dz)) Hs Hin) as [Hs' Hin'].
  apply IH; assumption.
Qed.

(** X14: A key held for [k] iterations, with an integer step of at most
    [INT_MAX - HEIGHT] pixels in absolute value (the program's step is 7),
    on a paddle of the constructor's size inside the field: no call
    raises, and with a non-negative step the paddle descends by [k] steps
    or stops at the bottom of the field, whichever comes first; with a
    non-positive step it rises or stops at the top. *)
Theorem held_key_reaches_edge (p : Paddle) (dz : Z) (k : nat) :
  paddle_sized p -> paddle_in_field p ->
  (Z.abs dz <= INT_MAX - HEIGHT)%Z ->
  exists p',
    move_by_checked_times p dz k = Some p' /\
    ((0 <= dz)%Z ->
     rect_top (rect p')
     = Z.min (rect_top (rect p) + dz * Z.of_nat k) (HEIGHT - rect_h (rect p))) /\
    ((dz <= 0)%Z ->
     rect_top (rect p') = Z.max (rect_top (rect p) + dz * Z.of_nat k) 0).
Proof.
  intros Hs Hin Hdz.
  assert (Hb : step_bounded (IZR dz)).
  { unfold step_bounded. rewrite <- abs_IZR. apply IZR_le, Hdz. }
  exists (move_by_times p dz k).
  split; [apply move_by_checked_times_agrees; assumption |].
  apply (move_by_times_top p dz k Hin).
Qed.

Lemma held_key_reaches_edge_witness :
  paddle_sized (Paddle_init 20 200) /\
  paddle_in_field (Paddle_init 20 200) /\
  (Z.abs 7 <= INT_MAX - HEIGHT)%Z /\
  exists p',
    move_by_checked_times (Paddle_init 20 200) 7 40 = Some p' /\
    rect_top (rect p') = 400%Z.
Proof.
  assert (Hin : paddle_in_field (Paddle_init 20 200))
    by (unfold paddle_in_field; vm_compute; split; discriminate).
  assert (Hdz : (Z.abs 7 <= INT_MAX - HEIGHT)%Z) by (vm_compute; discriminate).
  split; [apply paddle_init_sized |].
  split; [exact Hin |]. split; [exact Hdz |].
  destruct (held_key_reaches_edge (Paddle_init 20 200) 7 40
              (paddle_init_sized 20 200) Hin Hdz) as (p' & Hp & Hd & _).
  exists p'. split; [exact Hp |].
  rewrite Hd by discriminate. reflexivity.
Defined.

(** X15: The mouse: [move_to] puts the paddle's centre at the (integer part of
    the) given ordinate when that leaves the paddle inside the field, and
    otherwise pins the paddle against the top or the bottom of the field;
    the previous vertical position is forgotten, so repeating the call
    changes nothing. *)
Theorem move_to_tracks_mouse (p : Paddle) (y : R) :
  paddle_sized p ->
  let p' := move_to p y in
  let c := py_int y in
  ((c <= PADDLE_H / 2)%Z -> rect_top (rect p') = 0%Z) /\
  ((HEIGHT - PADDLE_H / 2 <= c)%Z -> rect_bottom (rect p') = HEIGHT) /\
  ((PADDLE_H / 2 <= c <= HEIGHT - PADDLE_H / 2)%Z ->
   (rect_top (rect p') + PADDLE_H / 2)%Z = c) /\
  move_to p' y = p' /\
  (forall q, same_shape p q -> move_to q y = p').
Proof.
  intros [Hw Hh] p' c.
  assert (Htop : rect_top (rect p')
                 = (Z.max 50 (Z.min 450 c) - 50)%Z).
  { subst p'. unfold move_to, rect_set_centery, rect_top; simpl.
    rewrite Hh. reflexivity. }
  assert (Hbot : rect_bottom (rect p')
                 = (Z.max 50 (Z.min 450 c) - 50 + 100)%Z).
  { unfold rect_bottom. unfold rect_top in Htop. rewrite Htop.
    subst p'. unfold move_to; simpl. rewrite Hh. reflexivity. }
  change (PADDLE_H / 2)%Z with 50%Z.
  change (HEIGHT - 50)%Z with 450%Z. unfold HEIGHT.
  assert (Hforget : forall q, same_shape p q -> move_to q y = p').
  { intros q (Qx & Qw & Qh & Qs). subst p'.
    unfold move_to, set_rect, rect_set_centery, rect_set_y.
    rewrite Qx, Qw, Qh, Qs. reflexivity. }
  split; [intros; lia |]. split; [intros; lia |]. split; [intros; lia |].
  split; [apply Hforget, move_to_shape | exact Hforget].
Qed.

Lemma move_to_tracks_mouse_witness :
  paddle_sized (Paddle_init 20 200) /\
  rect_bottom (rect (move_to (Paddle_init 20 200) (IZR 499))) = HEIGHT.
Proof.
  split; [apply paddle_init_sized |].
  apply (move_to_tracks_mouse (Paddle_init 20 200) (IZR 499)
           (paddle_init_sized 20 200)).
  rewrite py_int_IZR. vm_compute. discriminate.
Defined.

(** X16: The AI never moves its paddle away from the ball: when the ball is more
    than four pixels below the paddle's centre the paddle descends by four
    or five pixels (or as far as the bottom of the field allows), when it
    is more than four pixels above the paddle rises by four or five pixels
    (or as far as the top allows), and inside the dead zone the paddle
    stays. *)
Theorem ai_moves_toward_ball (g : Game) :
  paddle_in_field (right_paddle g) ->
  let top := rect_top (rect (right_paddle g)) in
  let h := rect_h (rect (right_paddle g)) in
  let top' := rect_top (rect (right_paddle (update_ai g))) in
  (4 < ai_diff g -> (Z.min (top + 4) (HEIGHT - h) <= top' <= top + 5)%Z) /\
  (ai_diff g < -4 -> (top - 5 <= top' <= Z.max (top - 4) 0)%Z) /\
  (-4 <= ai_diff g <= 4 -> top' = top).
Proof.
  intros Hin top h top'.
  assert (Htop : (0 <= top /\ top + h <= HEIGHT)%Z) by exact Hin.
  pose proof (ai_move_range (ai_diff g)) as [Mlo Mhi].
  unfold AI_MAX_SPEED in Mlo, Mhi. simpl in Mlo, Mhi.
  assert (Hmove : Rabs (ai_diff g) > 4 ->
            top' = rect_top (rect (move_by (right_paddle g)
                                     (ai_move (ai_diff g))))).
  { intros H. subst top'. unfold update_ai.
    destruct (Rgt_dec (Rabs (ai_diff g)) 4); [reflexivity | contradiction]. }
  pose proof (move_by_top (right_paddle g) (ai_move (ai_diff g))) as Hz.
  cbv zeta in Hz. fold h in Hz.
  change (rect_y (rect (move_by (right_paddle g) (ai_move (ai_diff g)))))
    with (rect_top (rect (move_by (right_paddle g) (ai_move (ai_diff g)))))
    in Hz.
  change (rect_y (rect (right_paddle g))) with top in Hz.
  set (z := py_int (IZR top + ai_move (ai_diff g))) in *.
  pose proof (py_int_close (IZR top + ai_move (ai_diff g))) as [C1 C2].
  fold z in C1, C2.
  split; [| split].
  - intros Hd.
    assert (Hm : 4 < ai_move (ai_diff g)).
    { unfold ai_move, AI_MAX_SPEED. simpl.
      apply Rlt_le_trans with (Rmin 5 (ai_diff g));
        [apply Rmin_glb_lt; lra | apply Rmax_r]. }
    rewrite Hmove by (rewrite Rabs_pos_eq; lra).
    rewrite Hz.
    assert (Z1 : (top + 4 <= z)%Z).
    { apply IZR_pred_lt_le. rewrite plus_IZR. lra. }
    assert (Z2 : (z <= top + 5)%Z).
    { apply IZR_lt_succ_le. rewrite plus_IZR. lra. }
    destruct (Z.ltb_spec z 0);
      match goal with |- context [(?a >? ?b)%Z] =>
        pose proof (Zgt_cases a b); destruct (a >? b)%Z end; lia.
  - intros Hd.
    assert (Hm : ai_move (ai_diff g) < -4).
    { unfold ai_move, AI_MAX_SPEED. simpl.
      apply Rmax_lub_lt; [lra |].
      apply Rle_lt_trans with (ai_diff g); [apply Rmin_r | lra]. }
    rewrite Hmove by (rewrite Rabs_left; lra).
    rewrite Hz.
    assert (Z1 : (top - 5 <= z)%Z).
    { apply IZR_pred_lt_le. rewrite minus_IZR. lra. }
    assert (Z2 : (z <= top - 4)%Z).
    { apply IZR_lt_succ_le. rewrite minus_IZR. lra. }
    destruct (Z.ltb_spec z 0);
      match goal with |- context [(?a >? ?b)%Z] =>
        pose proof (Zgt_cases a b); destruct (a >? b)%Z end; lia.
  - intros Hd. subst top'. rewrite update_ai_still; [reflexivity |].
    apply Rabs_le. lra.
Qed.

Lemma ai_moves_toward_ball_witness :
  paddle_in_field (right_paddle high_ball_game) /\
  (rect_top (rect (right_paddle (update_ai high_ball_game))) <= 196)%Z.
Proof.
  assert (Hin : paddle_in_field (right_paddle high_ball_game))
    by (unfold paddle_in_field; vm_compute; split; discriminate).
  split; [exact Hin |].
  destruct (ai_moves_toward_ball high_ball_game Hin) as (_ & H & _).
  apply H. unfold ai_diff; simpl. IZR_eval. lra.
Defined.

(** ** Scores over a run *)

Lemma tick_score_step (o : Oracle) (g : Game) (i : Input) :
  no_reset i ->
  (left_score (tick o g i) = left_score g /\
   right_score (tick o g i) = right_score g) \/
  (left_score (tick o g i) = (left_score g + 1)%Z /\
   right_score (tick o g i) = right_score g) \/
  (left_score (tick o g i) = left_score g /\
   right_score (tick o g i) = (right_score g + 1)%Z).
Proof.
  intros Hnr.
  destruct (apply_input_no_reset o g i Hnr) as ((_ & H1 & H2) & _).
  unfold tick. set (g1 := apply_input o g i) in *.
  destruct (paused g1); [auto |].
  destruct (physics_frame g1) as (_ & _ & Hl & Hr & _).
  remember (physics g1) as m eqn:Hm.
  destruct (scoring_cases o m) as [[_ H] | [(_ & _ & H) | (_ & _ & H)]];
    rewrite H; simpl; rewrite ?Hl, ?Hr, H1, H2; auto.
Qed.

(** X17: As long as the reset key is not pressed, neither score ever decreases,
    and the two scores together grow by at most one point per
    iteration. *)
Theorem scores_over_run (o : Oracle) (inputs : list Input) (g : Game) :
  Forall no_reset inputs ->
  let g' := main_loop o g inputs in
  (left_score g <= left_score g')%Z /\
  (right_score g <= right_score g')%Z /\
  (left_score g' + right_score g'
   <= left_score g + right_score g + Z.of_nat (length inputs))%Z.
Proof.
  cbv zeta. revert g.
  induction inputs as [| i rest IH]; intros g Hall; simpl main_loop.
  - simpl. lia.
  - inversion Hall as [| ? ? Hi Hrest]; subst.
    destruct (running g); [| simpl length; lia].
    specialize (IH (tick o g i) Hrest).
    pose proof (tick_score_step o g i Hi) as Hstep.
    simpl length. lia.
Qed.

Lemma scores_over_run_witness :
  Forall no_reset [no_input; no_input] /\
  (left_score (main_loop level_oracle left_exit_game [no_input; no_input])
   + right_score (main_loop level_oracle left_exit_game [no_input; no_input])
   <= left_score left_exit_game + right_score left_exit_game + 2)%Z.
Proof.
  assert (H : Forall no_reset [no_input; no_input])
    by (repeat constructor).
  split; [exact H |].
  apply (scores_over_run level_oracle [no_input; no_input] left_exit_game H).
Defined.

(** ** The score display *)

(** X18: [draw_scores] lays the left score, the separator and the right score
    out from left to right with 20 pixels between neighbours, and centres
    the group in the window: the margin on the right is the margin on the
    left, or one pixel more. *)
Theorem draw_scores_centred (left_w sep_w right_w x0 x1 x2 : Z) :
  draw_scores_xs left_w sep_w right_w = (x0, x1, x2) ->
  x1 = (x0 + left_w + 20)%Z /\
  x2 = (x1 + sep_w + 20)%Z /\
  (0 <= (WIDTH - (x2 + right_w)) - x0 <= 1)%Z /\
  ((0 <= left_w)%Z -> (0 <= sep_w)%Z -> (x0 < x1 < x2)%Z).
Proof.
  unfold draw_scores_xs. cbv zeta. intros H.
  set (total_w := (left_w + sep_w + right_w + 40)%Z) in *.
  pose proof (Z.div_mod (WIDTH - total_w) 2 ltac:(lia)) as Hd.
  pose proof (Z.mod_pos_bound (WIDTH - total_w) 2 ltac:(lia)) as Hm.
  set (d := ((WIDTH - total_w) / 2)%Z) in *.
  pose proof (f_equal (fun t => fst (fst t)) H) as E0.
  pose proof (f_equal (fun t => snd (fst t)) H) as E1.
  pose proof (f_equal snd H) as E2.
  cbn [fst snd] in E0, E1, E2. clear H.
  set (m := ((WIDTH - total_w) mod 2)%Z) in *.
  clearbody d m. subst total_w. unfold WIDTH in *.
  repeat split; intros; lia.
Qed.

Lemma draw_scores_centred_witness :
  draw_scores_xs 15 20 15 = (355, 390, 430)%Z /\ (355 < 390 < 430)%Z.
Proof.
  assert (H : draw_scores_xs 15 20 15 = (355, 390, 430)%Z) by reflexivity.
  split; [exact H |].
  apply (draw_scores_centred 15 20 15 355 390 430 H); discriminate.
Defined.

(** ** The ball's bounding square *)

(** X19: For a ball of the configured radius that lies inside the field towards
    the top and the left, [Ball.rect()] is a square of side 16 whose corner
    is less than one pixel up and left of the ball's own corner, and it
    contains the ball's centre. *)
Theorem ball_rect_bounds (b : Ball) :
  ball_r b = IZR BALL_RADIUS ->
  0 <= ball_x b - ball_r b -> 0 <= ball_y b - ball_r b ->
  let rc := Ball_rect b in
  rect_w rc = 16%Z /\ rect_h rc = 16%Z /\
  IZR (rect_left rc) <= ball_x b - ball_r b < IZR (rect_left rc) + 1 /\
  IZR (rect_top rc) <= ball_y b - ball_r b < IZR (rect_top rc) + 1 /\
  IZR (rect_left rc) <= ball_x b <= IZR (rect_right rc) /\
  IZR (rect_top rc) <= ball_y b <= IZR (rect_bottom rc).
Proof.
  intros Hr Hx Hy rc.
  assert (Hside : py_int (ball_r b * 2) = 16%Z).
  { rewrite Hr. unfold BALL_RADIUS.
    replace (8 * 2) with (IZR 16) by lra. apply py_int_IZR. }
  pose proof (py_int_nonneg _ Hx) as Px.
  pose proof (py_int_nonneg _ Hy) as Py.
  subst rc. unfold Ball_rect, rect_left, rect_top, rect_right, rect_bottom;
    simpl.
  rewrite Hside, !plus_IZR. rewrite Hr in *. unfold BALL_RADIUS in *.
  repeat split; try tauto; lra.
Qed.

Lemma ball_rect_bounds_witness :
  ball_r centre_hit_ball = IZR BALL_RADIUS /\
  0 <= ball_x centre_hit_ball - ball_r centre_hit_ball /\
  0 <= ball_y centre_hit_ball - ball_r centre_hit_ball /\
  rect_w (Ball_rect centre_hit_ball) = 16%Z.
Proof.
  assert (Hr : ball_r centre_hit_ball = IZR BALL_RADIUS) by reflexivity.
  assert (Hx : 0 <= ball_x centre_hit_ball - ball_r centre_hit_ball)
    by (simpl; lra).
  assert (Hy : 0 <= ball_y centre_hit_ball - ball_r centre_hit_ball)
    by (simpl; lra).
  split; [exact Hr |]. split; [exact Hx |]. split; [exact Hy |].
  apply (ball_rect_bounds centre_hit_ball Hr Hx Hy).
Defined.

(** ** No tunnelling *)

Lemma abs_le_hypot (a b : R) : Rabs a <= hypot a b.
Proof.
  unfold hypot. rewrite <- sqrt_Rsqr_abs. apply sqrt_le_1_alt.
  unfold Rsqr. pose proof (Rle_0_sqr b) as H. unfold Rsqr in H. lra.
Qed.

Lemma clamp_inside (l h c : R) : l <= c <= h -> Rmax l (Rmin c h) = c.
Proof.
  intros [H1 H2]. rewrite Rmin_left by exact H2. apply Rmax_right, H1.
Qed.

Lemma clamp_above (l h c : R) : l <= h <= c -> Rmax l (Rmin c h) = h.
Proof.
  intros [H1 H2]. rewrite Rmin_right by exact H2. apply Rmax_right, H1.
Qed.

Lemma clamp_below (l h c : R) : c <= l <= h -> Rmax l (Rmin c h) = l.
Proof.
  intros [H1 H2]. rewrite Rmin_left by lra. apply Rmax_left, H1.
Qed.

(** X20: The speed cap keeps the ball from jumping over a paddle: the ball
    advances by at most [BALL_MAX_SPEED] = 14 pixels, less than the paddle's
    width plus the ball's radius, so a ball that was clear of the paddle's
    face and, once advanced, is level with the paddle and has reached or
    passed that face, is reported by the collision test. *)
Theorem no_tunnelling (b : Ball) (p : Paddle) :
  ball_core b ->
  rect_w (rect p) = PADDLE_W ->
  let b' := wall_collision (update b) in
  IZR (rect_top (rect p)) <= ball_y b' <= IZR (rect_bottom (rect p)) ->
  (IZR (rect_right (rect p)) + ball_r b < ball_x b ->
   ball_x b' <= IZR (rect_right (rect p)) + ball_r b ->
   circle_rect_collision (ball_x b') (ball_y b') (ball_r b') (rect p) = true) /\
  (ball_x b + ball_r b < IZR (rect_left (rect p)) ->
   IZR (rect_left (rect p)) - ball_r b <= ball_x b' ->
   circle_rect_collision (ball_x b') (ball_y b') (ball_r b') (rect p) = true).
Proof.
  intros (Hr & Hs & _ & Hmax) Hw b' Hy.
  assert (Hv : -14 <= ball_vx b <= 14).
  { pose proof (abs_le_hypot (ball_vx b) (ball_vy b)) as Ha.
    rewrite <- Hs in Ha. unfold BALL_MAX_SPEED in Hmax.
    unfold Rabs in Ha. destruct (Rcase_abs (ball_vx b)); lra. }
  destruct (wall_collision_x (update b)) as [Bx Br].
  fold b' in Bx, Br. simpl in Bx, Br.
  assert (Hright : IZR (rect_right (rect p)) = IZR (rect_left (rect p)) + 12).
  { unfold rect_right, rect_left. rewrite Hw, plus_IZR. reflexivity. }
  unfold circle_rect_collision. cbv zeta.
  rewrite (clamp_inside _ _ (ball_y b') Hy).
  rewrite Br, Bx, Hr, Hright in *. unfold BALL_RADIUS in *.
  set (l := IZR (rect_left (rect p))) in *.
  set (x' := ball_x b + ball_vx b) in *.
  assert (Ex : x' = ball_x b + ball_vx b) by reflexivity.
  clearbody x' l.
  split; intros Hclear Hreach.
  - destruct (Rle_dec x' (l + 12)) as [Hin | Hout].
    + rewrite clamp_inside by lra.
      destruct (Rle_dec _ _) as [_ | Hn]; [reflexivity | exfalso; apply Hn; nra].
    + rewrite clamp_above by lra.
      destruct (Rle_dec _ _) as [_ | Hn]; [reflexivity | exfalso; apply Hn; nra].
  - destruct (Rle_dec l x') as [Hin | Hout].
    + rewrite clamp_inside by lra.
      destruct (Rle_dec _ _) as [_ | Hn]; [reflexivity | exfalso; apply Hn; nra].
    + rewrite clamp_below by lra.
      destruct (Rle_dec _ _) as [_ | Hn]; [reflexivity | exfalso; apply Hn; nra].
Qed.

Lemma no_tunnelling_witness :
  ball_core (mkBall 42 250 8 5 (-5) 0) /\
  rect_w (rect centre_hit_paddle) = PADDLE_W /\
  circle_rect_collision
    (ball_x (wall_collision (update (mkBall 42 250 8 5 (-5) 0))))
    (ball_y (wall_collision (update (mkBall 42 250 8 5 (-5) 0))))
    (ball_r (wall_collision (update (mkBall 42 250 8 5 (-5) 0))))
    (rect centre_hit_paddle) = true.
Proof.
  assert (Hc : ball_core (mkBall 42 250 8 5 (-5) 0)).
  { unfold ball_core; simpl. split; [reflexivity |].
    split; [symmetry; exact centre_hit_hypot |].
    unfold BALL_SPEED, BALL_MAX_SPEED. lra. }
  assert (Hw : rect_w (rect centre_hit_paddle) = PADDLE_W) by reflexivity.
  split; [exact Hc |]. split; [exact Hw |].
  assert (Hwall : wall_collision (update (mkBall 42 250 8 5 (-5) 0))
                  = update (mkBall 42 250 8 5 (-5) 0))
    by (apply wall_collision_inside; simpl; unfold HEIGHT; lra).
  refine (proj1 (no_tunnelling (mkBall 42 250 8 5 (-5) 0) centre_hit_paddle
                   Hc Hw _) _ _);
    rewrite ?Hwall; simpl; IZR_eval; lra.
Defined.
